(** * RawImage (utils/image): a shallow embedding and its verification

    The JavaScript class [RawImage] wraps a [Uint8ClampedArray] of
    interleaved pixel bytes together with a width, a height and a channel
    count.  Its methods mutate the instance they are called on ([_update])
    or allocate a new instance ([new RawImage]); typed arrays and instances
    are therefore heap objects here, and every method is a computation in a
    state-and-exception monad over that heap.

    JavaScript numbers are modelled by [Z] where the code keeps them
    integral (sizes, indices, bytes), by [Q] where the code halves them
    (the crop offsets) and by the kernel's binary64 [float] where the code
    does floating-point arithmetic (the luma formula, the affine scale).

    The canvas of the host, sharp and utils/maths.js are not part of the
    class: they are interfaces (type classes) the methods are written
    against, with a plain reference implementation of each to run the
    methods on concrete images.

    The file has two parts: the embedding (numbers, typed arrays, loops,
    the heap, the methods, the hosts, and the vocabulary of the
    statements), then the verification. *)

From Stdlib Require Import ZArith QArith Qround Floats Uint63 Ascii String Lia
  Bool.
From stdpp Require Import base list.

Local Open Scope string_scope.
Local Open Scope list_scope.
Local Open Scope Z_scope.
Set Warnings "-inexact-float".

(** ** JavaScript numbers that reach a typed array *)

(** What the code stores into a [Uint8ClampedArray]: an integer, [NaN]
    (also what [undefined] converts to) or an infinity. *)
Inductive number :=
| NaN
| Infinity (negative : bool)
| Int (z : Z).

(** ToUint8Clamp of ECMAScript, on the numbers above. *)
Definition ToUint8Clamp (v : number) : Z :=
  match v with
  | NaN => 0
  | Infinity negative => if negative then 0 else 255
  | Int z => Z.max 0 (Z.min 255 z)
  end.

(** ToNumber of an array element read: [undefined] becomes [NaN]. *)
Definition ToNumber (v : option Z) : number :=
  match v with
  | Some z => Int z
  | None => NaN
  end.

(** An integer as a binary64 number (exact below 2^53; array elements are
    bytes). *)
Definition Z2float (z : Z) : float :=
  if z <? 0 then PrimFloat.opp (PrimFloat.of_uint63 (Uint63.of_Z (- z)))
  else PrimFloat.of_uint63 (Uint63.of_Z z).

Definition float_of_elem (v : option Z) : float :=
  match v with
  | Some z => Z2float z
  | None => PrimFloat.nan
  end.

(** [Math.round]: the nearest integer, ties towards +infinity.  The float
    is decomposed exactly into [±m * 2^e] and rounded in [Z]. *)
Definition Math_round (x : float) : number :=
  match Prim2SF x with
  | S754_zero _ => Int 0
  | S754_infinity negative => Infinity negative
  | S754_nan => NaN
  | S754_finite negative m e =>
      let sm := if negative then Z.neg m else Z.pos m in
      if 0 <=? e then Int (sm * 2 ^ e)
      else Int ((2 * sm + 2 ^ (- e)) / 2 ^ (- e + 1))
  end.

(** The expression of [grayscale]:
    [Math.round(0.2989 * red + 0.5870 * green + 0.1140 * blue)]. *)
Definition luma (red green blue : option Z) : number :=
  Math_round (0.2989 * float_of_elem red + 0.5870 * float_of_elem green
              + 0.1140 * float_of_elem blue)%float.

(** ** Typed arrays *)

Definition len (a : list Z) : Z := Z.of_nat (length a).

(** [a[i]] for an integral [i]: [undefined] out of range. *)
Definition ta_get (a : list Z) (i : Z) : option Z :=
  if i <? 0 then None else a !! Z.to_nat i.

(** [a[i] = v]: clamped; ignored out of range (a typed array never
    grows). *)
Definition ta_set (a : list Z) (i : Z) (v : number) : list Z :=
  if i <? 0 then a else <[Z.to_nat i := ToUint8Clamp v]> a.

(** A JavaScript number that may be a half: integral or not. *)
Definition Q_integral (q : Q) : option Z :=
  if (Qnum q mod Z.pos (Qden q) =? 0) then Some (Qnum q / Z.pos (Qden q))
  else None.

(** [a[q]] for a number [q] that need not be integral: a property read
    with a non-integral key is [undefined]. *)
Definition ta_get_Q (a : list Z) (q : Q) : option Z :=
  match Q_integral q with
  | Some i => ta_get a i
  | None => None
  end.

(** ** Loops *)

(** [for (let i = start; i < stop; i += step) body]: [None] when the fuel
    runs out, which for [fuel = stop - start] happens exactly when
    [step <= 0] and the JavaScript loop does not terminate. *)
Fixpoint for_loop {S : Type} (fuel : nat) (i stop step : Z)
    (body : Z → S → S) (s : S) : option S :=
  if i <? stop then
    match fuel with
    | O => None
    | Datatypes.S fuel' => for_loop fuel' (i + step) stop step body (body i s)
    end
  else Some s.

Definition for_ {S : Type} (start stop step : Z) (body : Z → S → S) (s : S)
    : option S :=
  for_loop (Z.to_nat (stop - start)) start stop step body s.

(** ** The heap *)

(** Objects are named by their index in the heap. *)
Abbreviation loc := nat.

(** The fields of a [RawImage] instance; [data] refers to a typed array. *)
Record RawImage := mkRawImage {
  data : loc;
  width : Z;
  height : Z;
  channels : Z;
}.

(** Typed arrays, [RawImage] instances, and what [console.warn] printed. *)
Record heap := mkHeap {
  arrays : list (list Z);
  images : list RawImage;
  console : list string;
}.

(** [resize]'s option [resample]: a code or a name. *)
Inductive resample_arg :=
| code (n : Z)
| name (s : string).

(** A value [resampleMethod] can hold: a string, a number, or what a name
    such as [toString] finds on [Object.prototype]. *)
Inductive resample_method :=
| method_string (s : string)
| method_number (n : Z)
| method_inherited (key : string).

(** What a method can throw.  The source throws plain [Error]s told apart
    by their message; [RangeError] and [TypeError] are thrown by the
    language itself.  [Diverges] is no exception: it marks a loop that
    never ends. *)
Inductive error :=
| UnsupportedChannelCount (channels : Z)
| UnsupportedResampleMethod (resampleMethod : resample_method)
| NotSupported (method : string)
| RangeError
| TypeError
| Diverges.

(** State and exceptions: the heap a computation leaves behind is kept
    when it throws, as in JavaScript. *)
Definition M (A : Type) : Type := heap → heap * (error + A).

Definition ret {A : Type} (x : A) : M A := λ h, (h, inr x).

Definition throw {A : Type} (e : error) : M A := λ h, (h, inl e).

Definition bind {A B : Type} (m : M A) (k : A → M B) : M B :=
  λ h, match m h with
       | (h', inr x) => k x h'
       | (h', inl e) => (h', inl e)
       end.

Notation "'let*' x := m 'in' k" := (bind m (λ x, k))
  (at level 10, x name, m at level 100, k at level 200).

Definition get_image (this : loc) : M RawImage :=
  λ h, match images h !! this with
       | Some o => (h, inr o)
       | None => (h, inl TypeError)
       end.

Definition set_image (this : loc) (o : RawImage) : M unit :=
  λ h, (mkHeap (arrays h) (<[this := o]> (images h)) (console h), inr tt).

Definition alloc_image (o : RawImage) : M loc :=
  λ h, (mkHeap (arrays h) (images h ++ [o]) (console h),
        inr (length (images h))).

Definition get_array (a : loc) : M (list Z) :=
  λ h, match arrays h !! a with
       | Some d => (h, inr d)
       | None => (h, inl TypeError)
       end.

Definition set_array (a : loc) (d : list Z) : M unit :=
  λ h, (mkHeap (<[a := d]> (arrays h)) (images h) (console h), inr tt).

Definition alloc_array (d : list Z) : M loc :=
  λ h, (mkHeap (arrays h ++ [d]) (images h) (console h),
        inr (length (arrays h))).

Definition console_warn (message : string) : M unit :=
  λ h, (mkHeap (arrays h) (images h) (console h ++ [message]), inr tt).

(** [new Uint8ClampedArray(n)]: [n] zero bytes. *)
Definition new_Uint8ClampedArray (n : Z) : M loc :=
  if n <? 0 then throw RangeError
  else alloc_array (replicate (Z.to_nat n) 0).

(** Run a loop that writes into the array [a]. *)
Definition fill (a : loc) (loop : list Z → option (list Z)) : M unit :=
  let* content := get_array a in
  match loop content with
  | Some content' => set_array a content'
  | None => throw Diverges
  end.

(** The loops of the channel conversions keep [(newData, offset)]. *)
Definition with_offset (loop : list Z * Z → option (list Z * Z))
    (newData : list Z) : option (list Z) :=
  fst <$> loop (newData, 0).

(** ** The class RawImage: construction and channel conversion *)

(** [_update(data, width, height, channels = null)] *)
Definition _update (this : loc) (data' : loc) (width' height' : Z)
    (channels' : option Z) : M loc :=
  let* o := get_image this in
  let* _ := set_image this
              (mkRawImage data' width' height'
                 (match channels' with
                  | Some c => c
                  | None => channels o
                  end)) in
  ret this.

(** [new RawImage(data, width, height, channels)]: a fresh instance, then
    the constructor's call of [_update]. *)
Definition new_RawImage (data' : loc) (width' height' channels' : Z)
    : M loc :=
  let* this := alloc_image (mkRawImage data' width' height' channels') in
  _update this data' width' height' (Some channels').

(** The body of the loop of [grayscale], on the state
    [(newData, offset)]. *)
Definition grayscale_body (d : list Z) (i : Z) (st : list Z * Z)
    : list Z * Z :=
  let '(newData, offset) := st in
  let red := ta_get d i in
  let green := ta_get d (i + 1) in
  let blue := ta_get d (i + 2) in
  (ta_set newData offset (luma red green blue), offset + 1).

(** [grayscale()]: the new array is allocated before the [switch], with
    [width * height * 3] bytes. *)
Definition grayscale (this : loc) : M loc :=
  let* o := get_image this in
  if channels o =? 1 then ret this
  else
    let* newData := new_Uint8ClampedArray (width o * height o * 3) in
    let* _ :=
      if (channels o =? 3) || (channels o =? 4) then
        let* d := get_array (data o) in
        fill newData
          (with_offset (for_ 0 (len d) (channels o) (grayscale_body d)))
      else throw (UnsupportedChannelCount (channels o)) in
    _update this newData (width o) (height o) (Some 1).

(** Case 1 of [rgb]: every byte becomes R, G and B. *)
Definition gray_to_rgb_body (d : list Z) (i : Z) (st : list Z * Z)
    : list Z * Z :=
  let '(newData, offset) := st in
  let newData := ta_set newData offset (ToNumber (ta_get d i)) in
  let newData := ta_set newData (offset + 1) (ToNumber (ta_get d i)) in
  let newData := ta_set newData (offset + 2) (ToNumber (ta_get d i)) in
  (newData, offset + 3).

(** Case 4 of [rgb]: the alpha byte is skipped. *)
Definition rgba_to_rgb_body (d : list Z) (i : Z) (st : list Z * Z)
    : list Z * Z :=
  let '(newData, offset) := st in
  let newData := ta_set newData offset (ToNumber (ta_get d i)) in
  let newData := ta_set newData (offset + 1) (ToNumber (ta_get d (i + 1))) in
  let newData := ta_set newData (offset + 2) (ToNumber (ta_get d (i + 2))) in
  (newData, offset + 3).

(** [rgb()] *)
Definition rgb (this : loc) : M loc :=
  let* o := get_image this in
  if channels o =? 3 then ret this
  else
    let* newData := new_Uint8ClampedArray (width o * height o * 3) in
    let* _ :=
      if channels o =? 1 then
        let* d := get_array (data o) in
        fill newData (with_offset (for_ 0 (len d) 1 (gray_to_rgb_body d)))
      else if channels o =? 4 then
        let* d := get_array (data o) in
        fill newData (with_offset (for_ 0 (len d) 4 (rgba_to_rgb_body d)))
      else throw (UnsupportedChannelCount (channels o)) in
    _update this newData (width o) (height o) (Some 3).

(** Case 1 of [rgba]: gray to R, G, B, and alpha 255. *)
Definition gray_to_rgba_body (d : list Z) (i : Z) (st : list Z * Z)
    : list Z * Z :=
  let '(newData, offset) := st in
  let newData := ta_set newData offset (ToNumber (ta_get d i)) in
  let newData := ta_set newData (offset + 1) (ToNumber (ta_get d i)) in
  let newData := ta_set newData (offset + 2) (ToNumber (ta_get d i)) in
  let newData := ta_set newData (offset + 3) (Int 255) in
  (newData, offset + 4).

(** Case 3 of [rgba]: R, G, B copied, and alpha 255. *)
Definition rgb_to_rgba_body (d : list Z) (i : Z) (st : list Z * Z)
    : list Z * Z :=
  let '(newData, offset) := st in
  let newData := ta_set newData offset (ToNumber (ta_get d i)) in
  let newData := ta_set newData (offset + 1) (ToNumber (ta_get d (i + 1))) in
  let newData := ta_set newData (offset + 2) (ToNumber (ta_get d (i + 2))) in
  let newData := ta_set newData (offset + 3) (Int 255) in
  (newData, offset + 4).

(** [rgba()] *)
Definition rgba (this : loc) : M loc :=
  let* o := get_image this in
  if channels o =? 4 then ret this
  else
    let* newData := new_Uint8ClampedArray (width o * height o * 4) in
    let* _ :=
      if channels o =? 1 then
        let* d := get_array (data o) in
        fill newData (with_offset (for_ 0 (len d) 1 (gray_to_rgba_body d)))
      else if channels o =? 3 then
        let* d := get_array (data o) in
        fill newData (with_offset (for_ 0 (len d) 3 (rgb_to_rgba_body d)))
      else throw (UnsupportedChannelCount (channels o)) in
    _update this newData (width o) (height o) (Some 4).

(** [clone()]: [this.data.slice()] is a new array with the same bytes. *)
Definition clone (this : loc) : M loc :=
  let* o := get_image this in
  let* d := get_array (data o) in
  let* copy := alloc_array d in
  new_RawImage copy (width o) (height o) (channels o).

(** [convert(numChannels)]; the error of the [default] case reports
    [this.channels]. *)
Definition convert (this : loc) (numChannels : Z) : M loc :=
  let* o := get_image this in
  if channels o =? numChannels then ret this
  else
    let* _ :=
      if numChannels =? 1 then grayscale this
      else if numChannels =? 3 then rgb this
      else if numChannels =? 4 then rgba this
      else throw (UnsupportedChannelCount (channels o)) in
    ret this.

(** ** The host: module-level state and external collaborators *)

(** The module-level variables the methods branch on, and the flag
    [env.useGCanvas] of env.js. *)
Record Env := mkEnv {
  IS_REACT_NATIVE : bool;
  BROWSER_ENV : bool;
  createCanvasFunction_defined : bool;
  OffscreenCanvas_defined : bool;
  ImageDataClass_defined : bool;
  useGCanvas : bool;
}.

(** The 2D canvas of the host.  A canvas is a local object of the method
    that creates it, so drawing returns the canvas drawn on. *)
Class CanvasAPI := {
  Canvas : Type;
  (** [new OffscreenCanvas(w, h)], [document.createElement('canvas')] *)
  createCanvas : Z → Z → Canvas;
  (** [ctx.putImageData(imageData, dx, dy)], the image data given by its
      bytes, width and height *)
  putImageData : Canvas → list Z → Z → Z → Q → Q → Canvas;
  (** [ctx.drawImage(image, dx, dy, dWidth, dHeight)] *)
  drawImage5 : Canvas → Canvas → Q → Q → Q → Q → Canvas;
  (** [ctx.drawImage(image, sx, sy, sWidth, sHeight, dx, dy, dWidth,
      dHeight)] *)
  drawImage9 : Canvas → Canvas → Q → Q → Q → Q → Q → Q → Q → Q → Canvas;
  (** [ctx.getImageData(sx, sy, sw, sh).data] *)
  getImageData : Canvas → Z → Z → Z → Z → list Z;
  (** An [ImageData] holds four bytes for each of its [sw * sh] pixels. *)
  getImageData_length c sx sy sw sh :
    0 < sw → 0 < sh → len (getImageData c sx sy sw sh) = sw * sh * 4;
}.

(** An [ImageData] object: it refers to the array it was made from. *)
Record ImageData := mkImageData {
  id_data : loc;
  id_width : Z;
  id_height : Z;
}.

(** The operations of sharp the methods queue on an image. *)
Inductive sharp_op :=
| affine (m00 m01 m10 m11 : float) (interpolator : string)
| resize_fill (width height : Z) (kernel : string)
| extend (left right top bottom : Z)
| extract (left top width height : Z).

(** [sharp(data, {raw: {width, height, channels}})] with its queue. *)
Record Sharp := mkSharp {
  raw_data : list Z;
  raw_width : Z;
  raw_height : Z;
  raw_channels : Z;
  pipeline : list sharp_op;
}.

(** [img.raw().toBuffer({resolveWithObject: true})]: the bytes and
    [info.width], [info.height], [info.channels]. *)
Class SharpAPI := {
  toBuffer : Sharp → list Z * Z * Z * Z;
}.

(** utils/maths.js, of which the fallback [resize] uses two functions. *)
Class MathsAPI := {
  (** [transpose_data(array, dims, axes)]: the data and the new shape *)
  transpose_data : list Z → list Z → list Z → list Z * list Z;
  (** [interpolate_data(input, [channels, height, width],
      [out_height, out_width])] *)
  interpolate_data : list Z → Z * Z * Z → Z * Z → list Z;
}.

(** The property names every object inherits. *)
Definition Object_prototype_keys : list string :=
  ["constructor"; "__proto__"; "hasOwnProperty"; "isPrototypeOf";
   "propertyIsEnumerable"; "toLocaleString"; "toString"; "valueOf";
   "__defineGetter__"; "__defineSetter__"; "__lookupGetter__";
   "__lookupSetter__"].

(** The own properties of [RESAMPLING_MAPPING], by code. *)
Definition RESAMPLING_MAPPING (n : Z) : option string :=
  if n =? 0 then Some "nearest"
  else if n =? 1 then Some "lanczos"
  else if n =? 2 then Some "bilinear"
  else if n =? 3 then Some "bicubic"
  else if n =? 4 then Some "box"
  else if n =? 5 then Some "hamming"
  else None.

(** A property key that is the decimal form of a code in the table. *)
Definition key_code (s : string) : option Z :=
  if String.eqb s "0" then Some 0
  else if String.eqb s "1" then Some 1
  else if String.eqb s "2" then Some 2
  else if String.eqb s "3" then Some 3
  else if String.eqb s "4" then Some 4
  else if String.eqb s "5" then Some 5
  else None.

(** [RESAMPLING_MAPPING[resample] ?? resample] *)
Definition resolve_resample (resample : resample_arg) : resample_method :=
  match resample with
  | code n =>
      match RESAMPLING_MAPPING n with
      | Some s => method_string s
      | None => method_number n
      end
  | name s =>
      match key_code s with
      | Some n =>
          match RESAMPLING_MAPPING n with
          | Some s' => method_string s'
          | None => method_string s
          end
      | None =>
          if existsb (String.eqb s) Object_prototype_keys
          then method_inherited s
          else method_string s
      end
  end.

(** [for (let j = 0; j < n; j++) body] *)
Definition for_j {S : Type} (n : Z) (body : Z → S → S) (s : S) : S :=
  fold_left (λ s j, body j s) (seqZ 0 n) s.

(** The body of the loop of the fallback [pad].  A zero [this.width]
    makes [x], [y] and [pixelIndex] NaN or infinite, and a write at such
    an index is ignored. *)
Definition pad_body (d : list Z) (channels this_width width : Z) (i : Z)
    (paddedData : list Z) : list Z :=
  if this_width =? 0 then paddedData
  else
    let x := Z.rem (i / channels) this_width in
    let y := i / channels / this_width in
    let pixelIndex := (y * width + x) * channels in
    for_j channels
      (λ j paddedData,
         ta_set paddedData (pixelIndex + j) (ToNumber (ta_get d (i + j))))
      paddedData.

(** The body of the loop of the fallback [center_crop]; the offsets may
    be halves, and so may [pixelIndex]. *)
Definition center_crop_body (d : list Z) (channels this_width crop_width : Z)
    (width_offset height_offset : Q) (i : Z) (croppedData : list Z)
    : list Z :=
  let x := Z.rem (i / channels) crop_width in
  let y := i / channels / crop_width in
  let pixelIndex :=
    (((inject_Z y + height_offset) * inject_Z this_width
      + (inject_Z x + width_offset)) * inject_Z channels)%Q in
  for_j channels
    (λ j croppedData,
       ta_set croppedData (i + j)
         (ToNumber (ta_get_Q d (pixelIndex + inject_Z j)%Q)))
    croppedData.

(** What [console.warn] prints for [box] and [hamming]. *)
Definition downgrade_warning (s : string) : string :=
  ("Resampling method "
   ++ (s ++ " is not yet supported. Using bilinear instead."))%string.

Section Methods.

Context (env : Env) `{CanvasAPI} `{SharpAPI} `{MathsAPI}.

(** [createCanvasFunction(width, height)]: the React Native variant
    creates a canvas element, the browser variant needs
    [self.OffscreenCanvas]. *)
Definition createCanvasFunction (width' height' : Z) : M Canvas :=
  if negb (createCanvasFunction_defined env) then throw TypeError
  else if negb (IS_REACT_NATIVE env) && negb (OffscreenCanvas_defined env)
  then throw (NotSupported "OffscreenCanvas")
  else ret (createCanvas width' height').

(** [new ImageDataClass(data, width, height)] *)
Definition new_ImageDataClass (data' : loc) (width' height' : Z)
    : M ImageData :=
  if ImageDataClass_defined env then ret (mkImageData data' width' height')
  else throw TypeError.

(** [canvas.getContext('2d').putImageData(imageData, dx, dy)] *)
Definition ctx_putImageData (canvas : Canvas) (imageData : ImageData)
    (dx dy : Q) : M Canvas :=
  let* bytes := get_array (id_data imageData) in
  ret (putImageData canvas bytes (id_width imageData) (id_height imageData)
         dx dy).

(** [new RawImage(ctx.getImageData(0, 0, width, height).data, width,
    height, 4)] *)
Definition RawImage_of_canvas (canvas : Canvas) (width' height' : Z)
    : M loc :=
  let* newImageData := alloc_array (getImageData canvas 0 0 width' height') in
  new_RawImage newImageData width' height' 4.

(** [loadImageFunction(img)] of the sharp variant *)
Definition loadImageFunction (img : Sharp) : M loc :=
  let '(data', width', height', channels') := toBuffer img in
  let* bytes := alloc_array data' in
  new_RawImage bytes width' height' channels'.

(** [sharp(this.data, {raw: {width, height, channels}})] *)
Definition sharp (this : loc) : M Sharp :=
  let* o := get_image this in
  let* d := get_array (data o) in
  ret (mkSharp d (width o) (height o) (channels o) []).

Definition queue (img : Sharp) (op : sharp_op) : Sharp :=
  mkSharp (raw_data img) (raw_width img) (raw_height img) (raw_channels img)
    (pipeline img ++ [op]).

Definition toImageData (this : loc) : M ImageData :=
  if IS_REACT_NATIVE env && negb (ImageDataClass_defined env)
  then throw (NotSupported "toImageData")
  else
    let* cloned := clone this in
    let* cloned := rgba cloned in
    let* c := get_image cloned in
    new_ImageDataClass (data c) (width c) (height c).

Definition toCanvas (this : loc) : M Canvas :=
  if IS_REACT_NATIVE env && negb (createCanvasFunction_defined env)
  then throw (NotSupported "toCanvas")
  else
    let* cloned := clone this in
    let* cloned := rgba cloned in
    let* c := get_image cloned in
    let* clonedCanvas := createCanvasFunction (width c) (height c) in
    let* data' := new_ImageDataClass (data c) (width c) (height c) in
    ctx_putImageData clonedCanvas data' 0 0.

(** The [switch] of the sharp branch of [resize]: [box] and [hamming]
    warn and fall through to the affine case as [bilinear]. *)
Definition resize_switch (img : Sharp) (this_width this_height : Z)
    (width' height' : Z) (resampleMethod : resample_method) : M Sharp :=
  let scale interpolator :=
    affine (Z2float width' / Z2float this_width) 0 0
      (Z2float height' / Z2float this_height) interpolator in
  match resampleMethod with
  | method_string s =>
      if String.eqb s "box" || String.eqb s "hamming" then
        let* _ := console_warn (downgrade_warning s) in
        ret (queue img (scale "bilinear"))
      else if String.eqb s "nearest" || String.eqb s "bilinear"
              || String.eqb s "bicubic" then
        ret (queue img (scale s))
      else if String.eqb s "lanczos" then
        ret (queue img (resize_fill width' height' "lanczos3"))
      else throw (UnsupportedResampleMethod resampleMethod)
  | _ => throw (UnsupportedResampleMethod resampleMethod)
  end.

(** [resize(width, height, {resample = 2} = {})] *)
Definition resize (this : loc) (width' height' : Z)
    (resample : option resample_arg) : M loc :=
  let resampleMethod := resolve_resample (default (code 2) resample) in
  if IS_REACT_NATIVE env then
    if createCanvasFunction_defined env && useGCanvas env then
      let* o := get_image this in
      let* canvas := createCanvasFunction (width o) (height o) in
      let* imageData := toImageData this in
      let* canvas := ctx_putImageData canvas imageData 0 0 in
      let* o := get_image this in
      let canvas :=
        drawImage9 canvas canvas 0 0 (inject_Z (width o))
          (inject_Z (height o)) 0 0 (inject_Z width') (inject_Z height') in
      let* resized := RawImage_of_canvas canvas width' height' in
      convert resized (channels o)
    else
      let* o := get_image this in
      let* d := get_array (data o) in
      let trsnsposed :=
        (transpose_data d [width o; height o; channels o] [2; 0; 1]).1 in
      let resized :=
        interpolate_data trsnsposed (channels o, height o, width o)
          (height', width') in
      let newData :=
        (transpose_data resized [channels o; height'; width'] [1; 2; 0]).1 in
      let* newData := alloc_array newData in
      new_RawImage newData width' height' (channels o)
  else if BROWSER_ENV env then
    let* o := get_image this in
    let numChannels := channels o in
    let* canvas := toCanvas this in
    let* ctx := createCanvasFunction width' height' in
    let ctx := drawImage5 ctx canvas 0 0 (inject_Z width') (inject_Z height') in
    let* resizedImage := RawImage_of_canvas ctx width' height' in
    convert resizedImage numChannels
  else
    let* img := sharp this in
    let* o := get_image this in
    let* img := resize_switch img (width o) (height o) width' height'
                  resampleMethod in
    loadImageFunction img.

(** [pad([left, right, top, bottom])] *)
Definition pad (this : loc) (left right top bottom : Z) : M loc :=
  let left := Z.max left 0 in
  let right := Z.max right 0 in
  let top := Z.max top 0 in
  let bottom := Z.max bottom 0 in
  if (left =? 0) && (right =? 0) && (top =? 0) && (bottom =? 0) then ret this
  else if IS_REACT_NATIVE env then
    if createCanvasFunction_defined env && useGCanvas env then
      let* o := get_image this in
      let newWidth := width o + left + right in
      let newHeight := height o + top + bottom in
      let* canvas := createCanvasFunction newWidth newHeight in
      let* imageData := toImageData this in
      let* canvas := ctx_putImageData canvas imageData (inject_Z left)
                       (inject_Z top) in
      let* padded := RawImage_of_canvas canvas newWidth newHeight in
      let* o := get_image this in
      convert padded (channels o)
    else
      let* o := get_image this in
      let channels' := channels o in
      let* d := get_array (data o) in
      let width' := width o + left + right in
      let height' := height o + top + bottom in
      let* paddedData :=
        new_Uint8ClampedArray (width' * height' * channels') in
      let* _ :=
        fill paddedData
          (for_ 0 (len d) channels' (pad_body d channels' (width o) width')) in
      new_RawImage paddedData width' height' channels'
  else if BROWSER_ENV env then
    let* o := get_image this in
    let numChannels := channels o in
    let* canvas := toCanvas this in
    let* o := get_image this in
    let newWidth := width o + left + right in
    let newHeight := height o + top + bottom in
    let* ctx := createCanvasFunction newWidth newHeight in
    let ctx :=
      drawImage9 ctx canvas 0 0 (inject_Z (width o)) (inject_Z (height o))
        (inject_Z left) (inject_Z top) (inject_Z newWidth)
        (inject_Z newHeight) in
    let* paddedImage := RawImage_of_canvas ctx newWidth newHeight in
    convert paddedImage numChannels
  else
    let* img := sharp this in
    loadImageFunction (queue img (extend left right top bottom)).

(** [center_crop(crop_width, crop_height)] *)
Definition center_crop (this : loc) (crop_width crop_height : Z) : M loc :=
  let* o := get_image this in
  if (width o =? crop_width) && (height o =? crop_height) then ret this
  else
    let width_offset := (inject_Z (width o - crop_width) / 2)%Q in
    let height_offset := (inject_Z (height o - crop_height) / 2)%Q in
    if IS_REACT_NATIVE env then
      if createCanvasFunction_defined env && useGCanvas env then
        let* canvas := createCanvasFunction crop_width crop_height in
        let* imageData := toImageData this in
        let* canvas := ctx_putImageData canvas imageData (- width_offset)
                         (- height_offset) in
        let* cropped := RawImage_of_canvas canvas crop_width crop_height in
        let* o := get_image this in
        convert cropped (channels o)
      else
        let channels' := channels o in
        let* d := get_array (data o) in
        let* croppedData :=
          new_Uint8ClampedArray (crop_width * crop_height * channels') in
        let* _ :=
          fill croppedData
            (λ croppedData,
               for_ 0 (len croppedData) channels'
                 (center_crop_body d channels' (width o) crop_width
                    width_offset height_offset)
                 croppedData) in
        new_RawImage croppedData crop_width crop_height channels'
    else if BROWSER_ENV env then
      let numChannels := channels o in
      let* canvas := toCanvas this in
      let* ctx := createCanvasFunction crop_width crop_height in
      let sourceX := if Qle_bool 0 width_offset then width_offset else 0%Q in
      let destX := if Qle_bool 0 width_offset then 0%Q else (- width_offset)%Q in
      let sourceY := if Qle_bool 0 height_offset then height_offset else 0%Q in
      let destY := if Qle_bool 0 height_offset then 0%Q else (- height_offset)%Q in
      let ctx :=
        drawImage9 ctx canvas sourceX sourceY (inject_Z crop_width)
          (inject_Z crop_height) destX destY (inject_Z crop_width)
          (inject_Z crop_height) in
      let* resizedImage := RawImage_of_canvas ctx crop_width crop_height in
      convert resizedImage numChannels
    else
      let* img := sharp this in
      let img :=
        if Qle_bool 0 width_offset && Qle_bool 0 height_offset then
          queue img
            (extract (Qfloor width_offset) (Qfloor height_offset) crop_width
               crop_height)
        else if Qle_bool width_offset 0 && Qle_bool height_offset 0 then
          let top := Qfloor (- height_offset) in
          let left := Qfloor (- width_offset) in
          queue img
            (extend left (crop_width - width o - left) top
               (crop_height - height o - top))
        else
          let y_negative := negb (Qle_bool 0 height_offset) in
          let y_padding0 := if y_negative then Qfloor (- height_offset) else 0 in
          let y_padding1 :=
            if y_negative then crop_height - height o - y_padding0 else 0 in
          let y_extract := if y_negative then 0 else Qfloor height_offset in
          let x_negative := negb (Qle_bool 0 width_offset) in
          let x_padding0 := if x_negative then Qfloor (- width_offset) else 0 in
          let x_padding1 :=
            if x_negative then crop_width - width o - x_padding0 else 0 in
          let x_extract := if x_negative then 0 else Qfloor width_offset in
          queue
            (queue img (extend x_padding0 x_padding1 y_padding0 y_padding1))
            (extract x_extract y_extract crop_width crop_height) in
      loadImageFunction img.

End Methods.

(** ** A reference host

    Plain implementations of the three collaborators, to run the methods
    on concrete images: a canvas that copies and scales by nearest
    neighbour, sharp with zero-filled [extend], [extract] and nearest
    neighbour scaling, and the two functions of maths.js on three
    dimensions. *)

(** [w * h] pixels of [c] bytes each, the byte [k] of the pixel [(x, y)]
    given by [f x y k]. *)
Definition tabulate (w h c : Z) (f : Z → Z → Z → Z) : list Z :=
  (λ i, f (i / c mod w) (i / c / w) (i mod c)) <$> seqZ 0 (w * h * c).

(** The byte [k] of the pixel [(x, y)], 0 outside the image. *)
Definition byte_at (d : list Z) (w h c : Z) (x y k : Z) : Z :=
  if (0 <=? x) && (x <? w) && (0 <=? y) && (y <? h)
  then default 0 (ta_get d ((y * w + x) * c + k))
  else 0.

Record raster := mkRaster {
  raster_width : Z;
  raster_height : Z;
  raster_bytes : list Z;
}.

Definition raster_at (r : raster) : Z → Z → Z → Z :=
  byte_at (raster_bytes r) (raster_width r) (raster_height r) 4.

Definition raster_draw (r : raster) (f : Z → Z → Z → Z) : raster :=
  mkRaster (raster_width r) (raster_height r)
    (tabulate (raster_width r) (raster_height r) 4 f).

Definition in_rect (x y left top w h : Z) : bool :=
  (left <=? x) && (x <? left + w) && (top <=? y) && (y <? top + h).

Definition raster_drawImage (dest src : raster)
    (sx sy sw sh dx dy dw dh : Q) : raster :=
  let dx := Qfloor dx in
  let dy := Qfloor dy in
  raster_draw dest
    (λ x y k,
       if in_rect x y dx dy (Qceiling dw) (Qceiling dh)
       then raster_at src
              (Qfloor (sx + inject_Z (x - dx) * sw / dw))
              (Qfloor (sy + inject_Z (y - dy) * sh / dh)) k
       else raster_at dest x y k).

Definition raster_getImageData (r : raster) (sx sy sw sh : Z) : list Z :=
  tabulate sw sh 4 (λ x y k, raster_at r (sx + x) (sy + y) k).

Lemma tabulate_length w h c f : len (tabulate w h c f) = Z.max 0 (w * h * c).
Proof. unfold len, tabulate. rewrite length_fmap, length_seqZ. lia. Qed.

Lemma raster_getImageData_length r sx sy sw sh :
  0 < sw → 0 < sh → len (raster_getImageData r sx sy sw sh) = sw * sh * 4.
Proof. intros. unfold raster_getImageData. rewrite tabulate_length. nia. Qed.

#[export] Instance raster_canvas : CanvasAPI := {
  Canvas := raster;
  createCanvas w h := mkRaster w h (replicate (Z.to_nat (w * h * 4)) 0);
  putImageData r bytes w h dx dy :=
    let dx := Z.quot (Qnum dx) (Z.pos (Qden dx)) in
    let dy := Z.quot (Qnum dy) (Z.pos (Qden dy)) in
    raster_draw r
      (λ x y k,
         if in_rect x y dx dy w h then byte_at bytes w h 4 (x - dx) (y - dy) k
         else raster_at r x y k);
  drawImage5 dest src dx dy dw dh :=
    raster_drawImage dest src 0 0 (inject_Z (raster_width src))
      (inject_Z (raster_height src)) dx dy dw dh;
  drawImage9 := raster_drawImage;
  getImageData := raster_getImageData;
  getImageData_length := raster_getImageData_length;
}.

(** One operation of sharp on the bytes, width, height and channels. *)
Definition sharp_apply (img : list Z * Z * Z * Z) (op : sharp_op)
    : list Z * Z * Z * Z :=
  let '(d, w, h, c) := img in
  let scale w' h' :=
    (tabulate w' h' c (λ x y k, byte_at d w h c (x * w / w') (y * h / h') k),
     w', h', c) in
  match op with
  | affine m00 _ _ m11 _ =>
      scale (ToUint8Clamp (Math_round (m00 * Z2float w)))
        (ToUint8Clamp (Math_round (m11 * Z2float h)))
  | resize_fill w' h' _ => scale w' h'
  | extend l r t b =>
      (tabulate (w + l + r) (h + t + b) c
         (λ x y k, byte_at d w h c (x - l) (y - t) k),
       w + l + r, h + t + b, c)
  | extract l t w' h' =>
      (tabulate w' h' c (λ x y k, byte_at d w h c (x + l) (y + t) k),
       w', h', c)
  end.

#[export] Instance reference_sharp : SharpAPI := {
  toBuffer img :=
    fold_left sharp_apply (pipeline img)
      (raw_data img, raw_width img, raw_height img, raw_channels img);
}.

(** [dims !!! i] of a shape, 1 when absent. *)
Definition dim (dims : list Z) (i : Z) : Z := default 1 (ta_get dims i).

#[export] Instance reference_maths : MathsAPI := {
  transpose_data d dims axes :=
    let shape := [dim dims (dim axes 0); dim dims (dim axes 1);
                  dim dims (dim axes 2)] in
    ((λ i,
        let at_ j :=
          if j =? 0 then i / (dim shape 1 * dim shape 2)
          else if j =? 1 then i / dim shape 2 mod dim shape 1
          else i mod dim shape 2 in
        let coordinate a :=
          if dim axes 0 =? a then at_ 0
          else if dim axes 1 =? a then at_ 1
          else at_ 2 in
        default 0
          (ta_get d
             ((coordinate 0 * dim dims 1 + coordinate 1) * dim dims 2
              + coordinate 2)))
     <$> seqZ 0 (len d),
     shape);
  interpolate_data d '(c, h, w) '(h', w') :=
    (λ i,
       let k := i / (h' * w') in
       let y := i / w' mod h' in
       let x := i mod w' in
       default 0 (ta_get d ((k * h + y * h / h') * w + x * w / w')))
    <$> seqZ 0 (c * h' * w');
}.

(** The hosts the module distinguishes: React Native without a canvas
    (the fallback branches), React Native with the canvas polyfill, a
    browser or web worker, and Node.js with sharp. *)
Definition react_native_fallback : Env :=
  mkEnv true false false false false true.

Definition react_native_canvas : Env := mkEnv true false true false true true.

Definition browser : Env := mkEnv false true true true true true.

Definition node_sharp : Env := mkEnv false false false false false true.

(** The 2 by 2 RGB image red, green, blue, white. *)
Definition rgb_2x2 : heap :=
  mkHeap [[255; 0; 0; 0; 255; 0; 0; 0; 255; 255; 255; 255]]
    [mkRawImage 0 2 2 3] [].

(** A 1 by 1 image with two channels. *)
Definition two_channels : heap := mkHeap [[10; 20]] [mkRawImage 0 1 1 2] [].

(** One gray pixel. *)
Definition gray_1x1 : heap := mkHeap [[7]] [mkRawImage 0 1 1 1] [].

(** A row of three gray pixels. *)
Definition gray_3x1 : heap := mkHeap [[10; 20; 30]] [mkRawImage 0 3 1 1] [].

(** Four gray pixels, 2 by 2. *)
Definition gray_2x2 : heap := mkHeap [[5; 6; 7; 8]] [mkRawImage 0 2 2 1] [].

(** ** The vocabulary of the statements *)

Definition block_writer (body : Z → list Z * Z → list Z * Z) (m : Z)
    (val : Z → Z → Z) : Prop :=
  ∀ i nd off, 0 ≤ off →
    ∃ nd', body i (nd, off) = (nd', off + m) ∧ length nd' = length nd ∧
      ∀ q, ta_get nd' q
           = if bool_decide (off ≤ q < off + m ∧ q < len nd)
             then Some (val i (q - off)) else ta_get nd q.

(** The heap [h] after the instance [this] got [c] channels and the new
    array [nd]: the array is appended, the instance is updated, nothing
    else changes. *)
Definition converted (h : heap) (this : loc) (o : RawImage) (nd : list Z)
    (c : Z) : heap :=
  mkHeap (arrays h ++ [nd])
    (<[this := mkRawImage (length (arrays h)) (width o) (height o) c]>
       (images h))
    (console h).

(** The computation [m] throws [UnsupportedChannelCount c] from the heap
    [h] and leaves every instance, and every array that existed, as it
    was. *)
Definition fails_unsupported {A : Type} (m : M A) (h : heap) (c : Z) : Prop :=
  ∃ h', m h = (h', inl (UnsupportedChannelCount c))
        ∧ images h' = images h
        ∧ console h' = console h
        ∧ ∀ a d, arrays h !! a = Some d → arrays h' !! a = Some d.

(** Every instance other than [this] and every array of [h] is in [h']
    as it was in [h]. *)
Definition heap_le_except (this : loc) (h h' : heap) : Prop :=
  (∀ l o, l ≠ this → images h !! l = Some o → images h' !! l = Some o)
  ∧ (∀ a d, arrays h !! a = Some d → arrays h' !! a = Some d).

(** Every instance and every array of [h] is in [h'] as it was in [h]. *)
Definition heap_le (h h' : heap) : Prop :=
  (∀ l o, images h !! l = Some o → images h' !! l = Some o)
  ∧ (∀ a d, arrays h !! a = Some d → arrays h' !! a = Some d).

(** The instance [this] of [h] is an RGB buffer of [w] by [hh] pixels in
    which the bytes R, G and B of every pixel are equal. *)
Definition gray_rgb_buffer (h : heap) (this : loc) (w hh : Z) : Prop :=
  ∃ o d,
    images h !! this = Some o
    ∧ arrays h !! data o = Some d
    ∧ channels o = 3 ∧ width o = w ∧ height o = hh
    ∧ len d = w * hh * 3
    ∧ ∀ p, 0 ≤ p < w * hh →
        ∃ v, ta_get d (3 * p) = Some v
             ∧ ta_get d (3 * p + 1) = Some v
             ∧ ta_get d (3 * p + 2) = Some v.

(** The in-place channel conversions of the instance [this]. *)
Definition in_place_conversion (this : loc) (m : M loc) : Prop :=
  m = grayscale this ∨ m = rgb this ∨ m = rgba this
  ∨ ∃ n, m = convert this n.

(** The six names of [RESAMPLING_MAPPING]. *)
Definition resample_names : list string :=
  ["nearest"; "lanczos"; "bilinear"; "bicubic"; "box"; "hamming"].

(** A code that is none of 0..5, or a name that is neither one of the
    six names nor the decimal form of one of the codes. *)
Definition outside_table (resample : resample_arg) : Prop :=
  match resample with
  | code n => n < 0 ∨ 5 < n
  | name s => ¬ (s ∈ resample_names) ∧ key_code s = None
  end.

(** The heap [h] with one more line on the console. *)
Definition warned (h : heap) (message : string) : heap :=
  mkHeap (arrays h) (images h) (console h ++ [message]).

(** The image [img] with the affine scaling of [resize] queued. *)
Definition scaled (img : Sharp) (this_width this_height width' height' : Z)
    : Sharp :=
  queue img
    (affine (Z2float width' / Z2float this_width) 0 0
       (Z2float height' / Z2float this_height) "bilinear").

(** The instance [img] of [h] has [w] by [hh] pixels of one channel and
    three bytes for each of them. *)
Definition gray_with_three_bytes (h : heap) (img : loc) (w hh : Z) : Prop :=
  ∃ o d,
    images h !! img = Some o ∧ arrays h !! data o = Some d
    ∧ width o = w ∧ height o = hh ∧ channels o = 1
    ∧ len d = 3 * (width o * height o * channels o).

(** The elements of a typed array are bytes. *)
Definition bytes (d : list Z) : Prop := Forall (λ v, 0 ≤ v ≤ 255) d.

(** The instance [img] of [h] is the buffer of [w] by [hh] pixels of [c]
    channels whose byte [j] of the pixel [(x, y)] is [pixel x y j]. *)
Definition holds_pixels (h : heap) (img : loc) (w hh c : Z)
    (pixel : Z → Z → Z → Z) : Prop :=
  ∃ o d,
    images h !! img = Some o ∧ arrays h !! data o = Some d
    ∧ width o = w ∧ height o = hh ∧ channels o = c
    ∧ len d = w * hh * c
    ∧ ∀ x y j, 0 ≤ x < w → 0 ≤ y < hh → 0 ≤ j < c →
        ta_get d ((y * w + x) * c + j) = Some (pixel x y j).

(** Where the fallback [pad] writes the source pixel [k]. *)
Definition pad_destination (this_width width' channels' : Z) (k : Z) : Z :=
  (k / this_width * width' + Z.rem k this_width) * channels'.

(** A 4 by 4 RGBA image, all zero. *)
Definition zero_rgba_4x4 : heap :=
  mkHeap [replicate 64 0] [mkRawImage 0 4 4 4] [].

(** A 10 by 10 gray image whose pixel [(x, y)] is [10 * y + x]. *)
Definition gray_10x10 : heap :=
  mkHeap [seqZ 0 100] [mkRawImage 0 10 10 1] [].

(** One RGBA pixel. *)
Definition rgba_1x1 : heap := mkHeap [[1; 2; 3; 4]] [mkRawImage 0 1 1 4] [].

(** What the fallback [center_crop] reads for the byte [j] of the
    destination pixel [(x, y)]: the source byte whose index is the
    destination's position in the source, [(y * width + x) * channels + j],
    moved by [((height - crop_height) * width + (width - crop_width))
    * channels / 2]; nothing when that is no integer. *)
Definition center_crop_source (d : list Z) (this_width this_height : Z)
    (channels' crop_width crop_height : Z) (x y j : Z) : Z :=
  let shift2 :=
    ((this_height - crop_height) * this_width + (this_width - crop_width))
    * channels' in
  if Z.even shift2
  then ToUint8Clamp
         (ToNumber
            (ta_get d ((y * this_width + x) * channels' + j + shift2 / 2)))
  else 0.

(** The instance [img] of [h] is a buffer of [w] by [hh] pixels of [c]
    channels with [w * hh * c] bytes. *)
Definition has_shape (h : heap) (img : loc) (w hh c : Z) : Prop :=
  ∃ o d,
    images h !! img = Some o ∧ arrays h !! data o = Some d
    ∧ width o = w ∧ height o = hh ∧ channels o = c
    ∧ len d = w * hh * c.

(** The array [a] holds [w] by [hh] pixels of [c] bytes, the byte [j] of
    the pixel [(x, y)] being [pixel x y j]. *)
Definition array_pixels (a : list Z) (w hh c : Z)
    (pixel : Z → Z → Z → Z) : Prop :=
  len a = w * hh * c
  ∧ ∀ x y j, 0 ≤ x < w → 0 ≤ y < hh → 0 ≤ j < c →
      ta_get a ((y * w + x) * c + j) = Some (pixel x y j).

(** The byte [j] of the pixel [(x, y)] of a buffer seen as RGBA: gray is
    replicated, alpha is 255 when the buffer has none. *)
Definition rgba_byte (d : list Z) (w hh c : Z) (x y j : Z) : Z :=
  if c =? 4 then byte_at d w hh 4 x y j
  else if j =? 3 then 255
  else byte_at d w hh c x y (if c =? 1 then 0 else j).

(** A host with a canvas the methods use: React Native with the polyfill
    and [env.useGCanvas], or a browser with [OffscreenCanvas]. *)
Definition canvas_host (env : Env) : Prop :=
  createCanvasFunction_defined env = true
  ∧ ImageDataClass_defined env = true
  ∧ (IS_REACT_NATIVE env = true ∧ useGCanvas env = true
     ∨ IS_REACT_NATIVE env = false ∧ BROWSER_ENV env = true
       ∧ OffscreenCanvas_defined env = true).

(** The computation [m], whatever its outcome, leaves every instance and
    every array of the heap it starts from as it was. *)
Definition preserves {A : Type} (m : M A) : Prop :=
  ∀ h h' r, m h = (h', r) → heap_le h h'.


(** ** Saving

    [save] ends with one call of [fs].  The encoders are those of
    image-encode, of [Buffer] and of the canvas; [useFS] is [env.useFS]
    of env.js, which the user may set. *)
Class EncodeAPI `{CanvasAPI} := {
  (** [encode(data, mime)] *)
  encode : list Z → string → list Z;
  (** [Buffer.from(bytes).toString('base64')] *)
  toString_base64 : list Z → string;
  (** [canvas.toBuffer(mime)] *)
  canvas_toBuffer : Canvas → string → list Z;
}.

Inductive fs_call :=
| writeFile (path data encoding : string)
| writeFileSync (path : string) (buffer : list Z).

(** How [save] ends: with the error of a disabled file system, with what
    a method it calls throws, or with its call of [fs]. *)
Inductive saved :=
| FilesystemDisabled
| Thrown (e : error)
| Written (call : fs_call).

(** [save(path, mime = 'image/png')] *)
Definition save `{CanvasAPI} `{!EncodeAPI} (env : Env) (useFS : bool)
    (this : loc) (path : string) (mime : option string)
    : heap → heap * saved :=
  λ h,
    let mime := default "image/png" mime in
    if negb useFS then (h, FilesystemDisabled)
    else if IS_REACT_NATIVE env then
      match (let* converted := rgba this in
             let* o := get_image converted in
             get_array (data o)) h with
      | (h', inr bytes) =>
          (h', Written (writeFile path (toString_base64 (encode bytes mime))
                          "base64"))
      | (h', inl e) => (h', Thrown e)
      end
    else
      match toCanvas env this h with
      | (h', inr canvas) =>
          (h', Written (writeFileSync path (canvas_toBuffer canvas mime)))
      | (h', inl e) => (h', Thrown e)
      end.

(** A reference encoder: the bytes as they are, and base64. *)
Definition base64_digit (n : Z) : ascii :=
  default "="%char
    (String.get (Z.to_nat n)
       "ABCDEFGHIJKLMNOPQRSTUVWXYZabcdefghijklmnopqrstuvwxyz0123456789+/").

Fixpoint base64 (d : list Z) : string :=
  match d with
  | [] => ""
  | [a] =>
      String (base64_digit (a / 4))
        (String (base64_digit (a mod 4 * 16)) "==")
  | [a; b] =>
      String (base64_digit (a / 4))
        (String (base64_digit (a mod 4 * 16 + b / 16))
           (String (base64_digit (b mod 16 * 4)) "="))
  | a :: b :: c :: rest =>
      String (base64_digit (a / 4))
        (String (base64_digit (a mod 4 * 16 + b / 16))
           (String (base64_digit (b mod 16 * 4 + c / 64))
              (String (base64_digit (c mod 64)) (base64 rest))))
  end.

#[export] Instance reference_encode : @EncodeAPI raster_canvas := {
  encode d _ := d;
  toString_base64 := base64;
  canvas_toBuffer r _ := raster_bytes r;
}.

(** * Verification *)

(** ** Typed arrays and loops *)

Lemma Math_round_examples :
  (Math_round 2.5, Math_round (-2.5), Math_round 0.49999999999999994,
   Math_round (-0.2), Math_round 254.9745, Math_round nan)
  = (Int 3, Int (-2), Int 0, Int 0, Int 255, NaN).
Proof. vm_compute. reflexivity. Qed.

Lemma luma_primaries :
  (luma (Some 255) (Some 0) (Some 0), luma (Some 0) (Some 255) (Some 0),
   luma (Some 0) (Some 0) (Some 255), luma (Some 255) (Some 255) (Some 255),
   luma (Some 1) None None)
  = (Int 76, Int 150, Int 29, Int 255, NaN).
Proof. vm_compute. reflexivity. Qed.

(** The sum is computed in binary64: for the pixel (0, 36, 12) it is
    22.499999999999996, where the decimal sum is 22.5. *)
Lemma luma_is_binary64 : luma (Some 0) (Some 36) (Some 12) = Int 22.
Proof. vm_compute. reflexivity. Qed.

Lemma ta_set_length a i v : length (ta_set a i v) = length a.
Proof. unfold ta_set. destruct (i <? 0); [done | apply length_insert]. Qed.

Lemma len_ta_set a i v : len (ta_set a i v) = len a.
Proof. unfold len. by rewrite ta_set_length. Qed.

Lemma len_replicate n : 0 ≤ n → len (replicate (Z.to_nat n) 0) = n.
Proof. intros. unfold len. rewrite length_replicate. lia. Qed.

Lemma ta_get_set_eq a i v :
  0 ≤ i < len a → ta_get (ta_set a i v) i = Some (ToUint8Clamp v).
Proof.
  unfold ta_get, ta_set, len. intros Hi.
  destruct (Z.ltb_spec i 0); [lia |].
  apply list_lookup_insert_eq. lia.
Qed.

Lemma ta_get_set_ne a i j v : i ≠ j → ta_get (ta_set a i v) j = ta_get a j.
Proof.
  unfold ta_get, ta_set. intros Hij.
  destruct (Z.ltb_spec j 0); [done |].
  destruct (Z.ltb_spec i 0); [done |].
  apply list_lookup_insert_ne. lia.
Qed.

Lemma ta_get_Some a i x : ta_get a i = Some x → 0 ≤ i < len a.
Proof.
  unfold ta_get, len. destruct (Z.ltb_spec i 0); [done |].
  intros Hx%lookup_lt_Some. lia.
Qed.

Lemma ta_get_None a i : ¬ (0 ≤ i < len a) → ta_get a i = None.
Proof.
  unfold ta_get, len. intros Hi. destruct (Z.ltb_spec i 0); [done |].
  apply lookup_ge_None. lia.
Qed.

Lemma ta_set_out a i v : ¬ (0 ≤ i < len a) → ta_set a i v = a.
Proof.
  unfold ta_set, len. intros Hi. destruct (Z.ltb_spec i 0); [done |].
  apply list_insert_ge. lia.
Qed.

Lemma ta_get_replicate n i :
  0 ≤ i < n → ta_get (replicate (Z.to_nat n) 0) i = Some 0.
Proof.
  unfold ta_get. intros Hi. destruct (Z.ltb_spec i 0); [lia |].
  apply lookup_replicate_2. lia.
Qed.

(** The invariant rule of [for]: with a positive step and fuel for every
    iteration the loop ends, in a state that satisfies the invariant at
    an index past [stop]. *)
Lemma for_loop_inv {S : Type} (I : Z → S → Prop) fuel i stop step
    (body : Z → S → S) s :
  0 < step →
  stop - i ≤ Z.of_nat fuel →
  I i s →
  (∀ j t, j < stop → I j t → I (j + step) (body j t)) →
  ∃ j t, for_loop fuel i stop step body s = Some t ∧ I j t ∧ stop ≤ j.
Proof.
  intros Hstep. revert i s.
  induction fuel as [|fuel IH]; intros i s Hfuel Hi Hbody; simpl.
  - destruct (Z.ltb_spec i stop); [lia |]. eauto.
  - destruct (Z.ltb_spec i stop); [| eauto].
    apply IH; [lia | by apply Hbody | done].
Qed.

Lemma for_inv {S : Type} (I : Z → S → Prop) start stop step
    (body : Z → S → S) s :
  0 < step →
  I start s →
  (∀ j t, j < stop → I j t → I (j + step) (body j t)) →
  ∃ j t, for_ start stop step body s = Some t ∧ I j t ∧ stop ≤ j.
Proof. intros. apply for_loop_inv; [done | lia | done | done]. Qed.

(** A loop whose step is not positive and whose condition holds at the
    start never ends. *)
Lemma for_loop_diverges {S : Type} fuel i stop step (body : Z → S → S) s :
  step ≤ 0 → i < stop → for_loop fuel i stop step body s = None.
Proof.
  intros Hstep. revert i s. induction fuel as [|fuel IH]; intros i s Hi; simpl.
  - by destruct (Z.ltb_spec i stop); [| lia].
  - destruct (Z.ltb_spec i stop); [| lia]. apply IH. lia.
Qed.

Lemma for_j_inv {S : Type} (I : Z → S → Prop) n (body : Z → S → S) s :
  I 0 s →
  (∀ j t, 0 ≤ j < n → I j t → I (j + 1) (body j t)) →
  I (Z.max 0 n) (for_j n body s).
Proof.
  unfold for_j, seqZ. intros H0 Hbody.
  assert (Hgen : ∀ k m t, Z.of_nat (k + m) ≤ Z.max 0 n → I (Z.of_nat k) t →
    I (Z.of_nat (k + m))
      (fold_left (λ s j, body j s) ((λ i : nat, Z.of_nat i + 0) <$> seq k m) t)).
  { intros k m. revert k. induction m as [|m IH]; intros k t Hk Ht; simpl.
    - by rewrite Nat.add_0_r.
    - replace (k + Datatypes.S m)%nat with (Datatypes.S k + m)%nat by lia.
      apply IH; [lia |]. rewrite Z.add_0_r.
      replace (Z.of_nat (Datatypes.S k)) with (Z.of_nat k + 1) by lia.
      apply Hbody; [lia | done]. }
  specialize (Hgen 0%nat (Z.to_nat n) s).
  replace (Z.of_nat (0 + Z.to_nat n)) with (Z.max 0 n) in Hgen by lia.
  apply Hgen; [lia | done].
Qed.

Lemma ta_get_set a i v q :
  ta_get (ta_set a i v) q
  = if bool_decide (q = i ∧ 0 ≤ i < len a) then Some (ToUint8Clamp v)
    else ta_get a q.
Proof.
  case_bool_decide as Hq.
  - destruct Hq as [-> Hi]. by apply ta_get_set_eq.
  - destruct (Z.eq_dec i q) as [Heq | Hne].
    + subst q. rewrite ta_set_out; [done | tauto].
    + apply ta_get_set_ne, Hne.
Qed.

(** ** The loops of the channel conversions

    Each of them writes, at its [k]-th iteration, a block of [m] bytes at
    offset [k * m] of [newData]. *)

Lemma block_index m k q : 0 < m → k * m ≤ q < k * m + m → q / m = k.
Proof. intros Hm Hq. symmetry. apply (Z.div_unique q m k (q - k * m)); lia. Qed.

Lemma block_loop body m val step stop n :
  0 < m → 0 < step → block_writer body m val →
  ∃ nd,
    with_offset (for_ 0 stop step body) (replicate (Z.to_nat n) 0) = Some nd
    ∧ length nd = Z.to_nat n
    ∧ ∀ q, 0 ≤ q < n →
        ta_get nd q
        = Some (if bool_decide (q / m * step < stop)
                then val (q / m * step) (q mod m) else 0).
Proof.
  intros Hm Hstep Hbody. unfold with_offset.
  destruct (for_inv
    (λ i st, ∃ k, 0 ≤ k ∧ i = k * step ∧ st.2 = k * m
       ∧ (k = 0 ∨ (k - 1) * step < stop)
       ∧ length st.1 = Z.to_nat n
       ∧ ∀ q, 0 ≤ q < n →
           ta_get st.1 q
           = Some (if bool_decide (q / m < k)
                   then val (q / m * step) (q mod m) else 0))
    0 stop step body (replicate (Z.to_nat n) 0, 0) Hstep)
    as (j & [nd off] & -> & (k & Hk & -> & Hoff & Hlast & Hlen & Hnd) & Hj).
  - exists 0. simpl. rewrite length_replicate.
    repeat split; [lia .. |]. intros q Hq.
    rewrite ta_get_replicate by done.
    case_bool_decide as Hlt; [| done].
    pose proof (Z.div_pos q m). lia.
  - intros j [nd off] Hj (k & Hk & -> & Hoff & Hlast & Hlen & Hnd).
    simpl in *. subst off.
    destruct (Hbody (k * step) nd (k * m)) as (nd' & -> & Hlen' & Hnd'); [lia |].
    exists (k + 1). simpl. repeat split; [lia .. | right; lia | congruence |].
    intros q Hq. rewrite Hnd'.
    case_bool_decide as Hin.
    + destruct Hin as [Hin _].
      rewrite (block_index m k q) by lia.
      rewrite bool_decide_true by lia.
      do 2 f_equal. rewrite Z.mod_eq by lia.
      rewrite (block_index m k q) by lia. lia.
    + rewrite Hnd by done.
      assert (q / m ≠ k).
      { intros Heq. apply Hin. unfold len. rewrite Hlen.
        pose proof (Z.mul_div_le q m). pose proof (Z.mod_pos_bound q m).
        pose proof (Z.div_mod q m). subst k. lia. }
      do 2 case_bool_decide; try done; lia.
  - simpl in *. exists nd. split; [done |]. split; [done |].
    intros q Hq. rewrite Hnd by done. f_equal.
    assert (q / m < k ↔ q / m * step < stop); [| by repeat case_bool_decide; tauto].
    assert (0 ≤ q / m) by (apply Z.div_pos; lia).
    split; intros Hlt.
    + destruct Hlast as [-> | Hlast]; [lia |].
      assert (q / m * step ≤ (k - 1) * step)
        by (apply Z.mul_le_mono_nonneg_r; lia).
      lia.
    + destruct (Z.lt_ge_cases (q / m) k) as [| Hge]; [done |].
      apply (Z.mul_le_mono_nonneg_r _ _ step) in Hge; lia.
Qed.

Lemma grayscale_body_block d :
  block_writer (grayscale_body d) 1
    (λ i _, ToUint8Clamp
              (luma (ta_get d i) (ta_get d (i + 1)) (ta_get d (i + 2)))).
Proof.
  intros i nd off Hoff. eexists. split; [done |].
  split; [apply ta_set_length |].
  intros q. rewrite ta_get_set.
  repeat case_bool_decide; try done; lia.
Qed.

Lemma gray_to_rgb_body_block d :
  block_writer (gray_to_rgb_body d) 3
    (λ i _, ToUint8Clamp (ToNumber (ta_get d i))).
Proof.
  intros i nd off Hoff. eexists. split; [done |].
  split; [by rewrite !ta_set_length |].
  intros q. rewrite !ta_get_set, !len_ta_set.
  repeat case_bool_decide; try done; lia.
Qed.

Lemma rgba_to_rgb_body_block d :
  block_writer (rgba_to_rgb_body d) 3
    (λ i k, ToUint8Clamp (ToNumber (ta_get d (i + k)))).
Proof.
  intros i nd off Hoff. eexists. split; [done |].
  split; [by rewrite !ta_set_length |].
  intros q. rewrite !ta_get_set, !len_ta_set.
  repeat case_bool_decide; try done; try lia;
    repeat f_equal; lia.
Qed.

Lemma gray_to_rgba_body_block d :
  block_writer (gray_to_rgba_body d) 4
    (λ i k, if k =? 3 then 255 else ToUint8Clamp (ToNumber (ta_get d i))).
Proof.
  intros i nd off Hoff. eexists. split; [done |].
  split; [by rewrite !ta_set_length |].
  intros q. rewrite !ta_get_set, !len_ta_set.
  repeat case_bool_decide; try done; try lia;
    destruct (Z.eqb_spec (q - off) 3); try done; lia.
Qed.

Lemma rgb_to_rgba_body_block d :
  block_writer (rgb_to_rgba_body d) 4
    (λ i k, if k =? 3 then 255
            else ToUint8Clamp (ToNumber (ta_get d (i + k)))).
Proof.
  intros i nd off Hoff. eexists. split; [done |].
  split; [by rewrite !ta_set_length |].
  intros q. rewrite !ta_get_set, !len_ta_set.
  repeat case_bool_decide; try done; try lia;
    destruct (Z.eqb_spec (q - off) 3); try done; try lia;
    repeat f_equal; lia.
Qed.

(** ** The heap after an in-place conversion *)

Lemma lookup_snoc_new {A : Type} (l : list A) x :
  (l ++ [x]) !! length l = Some x.
Proof. by apply list_lookup_middle. Qed.

Lemma insert_snoc_new {A : Type} (l : list A) x y :
  <[length l := y]> (l ++ [x]) = l ++ [y].
Proof. rewrite insert_app_r_alt by lia. by rewrite Nat.sub_diag. Qed.

Lemma lookup_snoc_old {A : Type} (l : list A) x i y :
  l !! i = Some y → (l ++ [x]) !! i = Some y.
Proof. apply lookup_app_l_Some. Qed.

(** Running a computation one step at a time. *)

Lemma bind_run {A B : Type} (m : M A) (k : A → M B) h h' x :
  m h = (h', inr x) → bind m k h = k x h'.
Proof. unfold bind. by intros ->. Qed.

Lemma bind_throw {A B : Type} (m : M A) (k : A → M B) h h' e :
  m h = (h', inl e) → bind m k h = (h', inl e).
Proof. unfold bind. by intros ->. Qed.

Lemma bind_assoc {A B C : Type} (m : M A) (f : A → M B) (g : B → M C) h :
  bind (bind m f) g h = bind m (λ x, bind (f x) g) h.
Proof. unfold bind. by destruct (m h) as [? [|]]. Qed.

Lemma get_image_run h this o :
  images h !! this = Some o → get_image this h = (h, inr o).
Proof. unfold get_image. by intros ->. Qed.

Lemma get_array_run h a d :
  arrays h !! a = Some d → get_array a h = (h, inr d).
Proof. unfold get_array. by intros ->. Qed.

Lemma new_Uint8ClampedArray_run h n :
  0 ≤ n →
  new_Uint8ClampedArray n h
  = (mkHeap (arrays h ++ [replicate (Z.to_nat n) 0]) (images h) (console h),
     inr (length (arrays h))).
Proof.
  intros Hn. unfold new_Uint8ClampedArray.
  by destruct (Z.ltb_spec n 0); [lia |].
Qed.

Lemma fill_run h a content loop content' :
  arrays h !! a = Some content →
  loop content = Some content' →
  fill a loop h
  = (mkHeap (<[a := content']> (arrays h)) (images h) (console h), inr tt).
Proof.
  intros Ha Hloop. unfold fill.
  rewrite (bind_run _ _ _ _ _ (get_array_run _ _ _ Ha)). by rewrite Hloop.
Qed.

Lemma _update_run h this o data' width' height' c :
  images h !! this = Some o →
  _update this data' width' height' (Some c) h
  = (mkHeap (arrays h)
       (<[this := mkRawImage data' width' height' c]> (images h))
       (console h), inr this).
Proof.
  intros Himg. unfold _update.
  by rewrite (bind_run _ _ _ _ _ (get_image_run _ _ _ Himg)).
Qed.

(** The common shape of [grayscale], [rgb] and [rgba] once the channel
    count is supported: allocate, fill, update. *)
Lemma conversion_run h this o d n (loop : list Z → list Z → option (list Z))
    nd c :
  images h !! this = Some o →
  arrays h !! data o = Some d →
  0 ≤ n →
  loop d (replicate (Z.to_nat n) 0) = Some nd →
  (let* newData := new_Uint8ClampedArray n in
   let* _ := (let* d' := get_array (data o) in fill newData (loop d')) in
   _update this newData (width o) (height o) (Some c)) h
  = (converted h this o nd c, inr this).
Proof.
  intros Himg Harr Hn Hloop.
  rewrite (bind_run _ _ _ _ _ (new_Uint8ClampedArray_run h n Hn)).
  rewrite bind_assoc.
  erewrite bind_run by (apply get_array_run; simpl; by apply lookup_snoc_old).
  erewrite bind_run
    by (eapply fill_run; [simpl; apply lookup_snoc_new | done]).
  rewrite (_update_run _ _ o) by done.
  unfold converted. simpl. by rewrite insert_snoc_new.
Qed.

Lemma grayscale_run h this o d :
  images h !! this = Some o →
  arrays h !! data o = Some d →
  channels o = 3 ∨ channels o = 4 →
  0 ≤ width o * height o →
  ∃ nd,
    grayscale this h = (converted h this o nd 1, inr this)
    ∧ length nd = Z.to_nat (width o * height o * 3)
    ∧ ∀ q, 0 ≤ q < width o * height o * 3 →
        ta_get nd q
        = Some (if bool_decide (q * channels o < len d)
                then ToUint8Clamp
                       (luma (ta_get d (q * channels o))
                          (ta_get d (q * channels o + 1))
                          (ta_get d (q * channels o + 2)))
                else 0).
Proof.
  intros Himg Harr Hc Hn.
  destruct (block_loop (grayscale_body d) 1 _ (channels o) (len d)
              (width o * height o * 3) ltac:(lia) ltac:(lia)
              (grayscale_body_block d)) as (nd & Hloop & Hlen & Hnd).
  exists nd. split; [| split; [done |]].
  - unfold grayscale. unfold bind at 1. unfold get_image. rewrite Himg.
    destruct (Z.eqb_spec (channels o) 1); [lia |].
    replace ((channels o =? 3) || (channels o =? 4)) with true
      by (destruct Hc as [-> | ->]; done).
    apply (conversion_run h this o d _
             (λ d, with_offset (for_ 0 (len d) (channels o)
                                  (grayscale_body d))));
      [done | done | lia | done].
  - intros q Hq. rewrite Hnd by done. by rewrite Z.div_1_r.
Qed.

Lemma rgb_run h this o d :
  images h !! this = Some o →
  arrays h !! data o = Some d →
  channels o = 1 ∨ channels o = 4 →
  0 ≤ width o * height o →
  ∃ nd,
    rgb this h = (converted h this o nd 3, inr this)
    ∧ length nd = Z.to_nat (width o * height o * 3)
    ∧ ∀ q, 0 ≤ q < width o * height o * 3 →
        ta_get nd q
        = Some (if bool_decide (q / 3 * channels o < len d)
                then ToUint8Clamp
                       (ToNumber
                          (ta_get d (q / 3 * channels o
                                     + if channels o =? 1 then 0
                                       else q mod 3)))
                else 0).
Proof.
  intros Himg Harr [Hc | Hc] Hn.
  - destruct (block_loop (gray_to_rgb_body d) 3 _ 1 (len d)
                (width o * height o * 3) ltac:(lia) ltac:(lia)
                (gray_to_rgb_body_block d)) as (nd & Hloop & Hlen & Hnd).
    exists nd. split; [| split; [done |]].
    + unfold rgb. rewrite (bind_run _ _ _ _ _ (get_image_run _ _ _ Himg)).
      rewrite Hc. simpl.
      apply (conversion_run h this o d _
               (λ d, with_offset (for_ 0 (len d) 1 (gray_to_rgb_body d))));
        [done | done | lia | done].
    + intros q Hq. rewrite Hnd, Hc by done. simpl. by rewrite Z.add_0_r.
  - destruct (block_loop (rgba_to_rgb_body d) 3 _ 4 (len d)
                (width o * height o * 3) ltac:(lia) ltac:(lia)
                (rgba_to_rgb_body_block d)) as (nd & Hloop & Hlen & Hnd).
    exists nd. split; [| split; [done |]].
    + unfold rgb. rewrite (bind_run _ _ _ _ _ (get_image_run _ _ _ Himg)).
      rewrite Hc. simpl.
      apply (conversion_run h this o d _
               (λ d, with_offset (for_ 0 (len d) 4 (rgba_to_rgb_body d))));
        [done | done | lia | done].
    + intros q Hq. by rewrite Hnd, Hc by done.
Qed.

Lemma rgba_run h this o d :
  images h !! this = Some o →
  arrays h !! data o = Some d →
  channels o = 1 ∨ channels o = 3 →
  0 ≤ width o * height o →
  ∃ nd,
    rgba this h = (converted h this o nd 4, inr this)
    ∧ length nd = Z.to_nat (width o * height o * 4)
    ∧ ∀ q, 0 ≤ q < width o * height o * 4 →
        ta_get nd q
        = Some (if bool_decide (q / 4 * channels o < len d)
                then if q mod 4 =? 3 then 255
                     else ToUint8Clamp
                            (ToNumber
                               (ta_get d (q / 4 * channels o
                                          + if channels o =? 1 then 0
                                            else q mod 4)))
                else 0).
Proof.
  intros Himg Harr [Hc | Hc] Hn.
  - destruct (block_loop (gray_to_rgba_body d) 4 _ 1 (len d)
                (width o * height o * 4) ltac:(lia) ltac:(lia)
                (gray_to_rgba_body_block d)) as (nd & Hloop & Hlen & Hnd).
    exists nd. split; [| split; [done |]].
    + unfold rgba. rewrite (bind_run _ _ _ _ _ (get_image_run _ _ _ Himg)).
      rewrite Hc. simpl.
      apply (conversion_run h this o d _
               (λ d, with_offset (for_ 0 (len d) 1 (gray_to_rgba_body d))));
        [done | done | lia | done].
    + intros q Hq. rewrite Hnd, Hc by done. simpl. by rewrite Z.add_0_r.
  - destruct (block_loop (rgb_to_rgba_body d) 4 _ 3 (len d)
                (width o * height o * 4) ltac:(lia) ltac:(lia)
                (rgb_to_rgba_body_block d)) as (nd & Hloop & Hlen & Hnd).
    exists nd. split; [| split; [done |]].
    + unfold rgba. rewrite (bind_run _ _ _ _ _ (get_image_run _ _ _ Himg)).
      rewrite Hc. simpl.
      apply (conversion_run h this o d _
               (λ d, with_offset (for_ 0 (len d) 3 (rgb_to_rgba_body d))));
        [done | done | lia | done].
    + intros q Hq. by rewrite Hnd, Hc by done.
Qed.

(** A conversion to the channel count the instance has does nothing. *)

Lemma grayscale_noop h this o :
  images h !! this = Some o → channels o = 1 → grayscale this h = (h, inr this).
Proof.
  intros Himg Hc. unfold grayscale.
  rewrite (bind_run _ _ _ _ _ (get_image_run _ _ _ Himg)). by rewrite Hc.
Qed.

Lemma rgb_noop h this o :
  images h !! this = Some o → channels o = 3 → rgb this h = (h, inr this).
Proof.
  intros Himg Hc. unfold rgb.
  rewrite (bind_run _ _ _ _ _ (get_image_run _ _ _ Himg)). by rewrite Hc.
Qed.

Lemma rgba_noop h this o :
  images h !! this = Some o → channels o = 4 → rgba this h = (h, inr this).
Proof.
  intros Himg Hc. unfold rgba.
  rewrite (bind_run _ _ _ _ _ (get_image_run _ _ _ Himg)). by rewrite Hc.
Qed.

Lemma convert_noop h this o :
  images h !! this = Some o → convert this (channels o) h = (h, inr this).
Proof.
  intros Himg. unfold convert.
  rewrite (bind_run _ _ _ _ _ (get_image_run _ _ _ Himg)).
  by rewrite Z.eqb_refl.
Qed.

(** The instance [this] of [converted h this o nd c]. *)
Lemma converted_image h this o nd c :
  images h !! this = Some o →
  images (converted h this o nd c) !! this
  = Some (mkRawImage (length (arrays h)) (width o) (height o) c).
Proof.
  intros Himg%lookup_lt_Some. simpl. by apply list_lookup_insert_eq.
Qed.

Lemma converted_array h this o nd c :
  arrays (converted h this o nd c) !! length (arrays h) = Some nd.
Proof. apply lookup_snoc_new. Qed.

Lemma convert_1_run h this o h' r :
  images h !! this = Some o → channels o ≠ 1 →
  grayscale this h = (h', inr r) → convert this 1 h = (h', inr this).
Proof.
  intros Himg Hc Hrun. unfold convert.
  rewrite (bind_run _ _ _ _ _ (get_image_run _ _ _ Himg)).
  destruct (Z.eqb_spec (channels o) 1); [done |]. simpl.
  by rewrite (bind_run _ _ _ _ _ Hrun).
Qed.

Lemma convert_3_run h this o h' r :
  images h !! this = Some o → channels o ≠ 3 →
  rgb this h = (h', inr r) → convert this 3 h = (h', inr this).
Proof.
  intros Himg Hc Hrun. unfold convert.
  rewrite (bind_run _ _ _ _ _ (get_image_run _ _ _ Himg)).
  destruct (Z.eqb_spec (channels o) 3); [done |]. simpl.
  by rewrite (bind_run _ _ _ _ _ Hrun).
Qed.

Lemma convert_4_run h this o h' r :
  images h !! this = Some o → channels o ≠ 4 →
  rgba this h = (h', inr r) → convert this 4 h = (h', inr this).
Proof.
  intros Himg Hc Hrun. unfold convert.
  rewrite (bind_run _ _ _ _ _ (get_image_run _ _ _ Himg)).
  destruct (Z.eqb_spec (channels o) 4); [done |]. simpl.
  by rewrite (bind_run _ _ _ _ _ Hrun).
Qed.

Lemma block_of_three p k : 0 ≤ k < 3 → (3 * p + k) / 3 = p.
Proof. intros Hk. apply (block_index 3 p); lia. Qed.

(** ** Grayscale round trip *)

(** C6: for a valid buffer with 1, 3 or 4 channels,
    [convert(convert(img, 1), 3)] succeeds and leaves a 3-channel buffer
    of the same size, of [width * height * 3] bytes, in which the three
    bytes R, G and B of every pixel are equal. *)
Theorem convert_gray_then_rgb_is_gray h this o d :
  images h !! this = Some o →
  arrays h !! data o = Some d →
  channels o = 1 ∨ channels o = 3 ∨ channels o = 4 →
  0 < width o → 0 < height o →
  len d = width o * height o * channels o →
  ∃ h',
    (let* img := convert this 1 in convert img 3) h = (h', inr this)
    ∧ gray_rgb_buffer h' this (width o) (height o).
Proof.
  intros Himg Harr Hc Hw Hh Hlen.
  assert (Hgray : ∃ h1 o1 d1,
    convert this 1 h = (h1, inr this)
    ∧ images h1 !! this = Some o1 ∧ arrays h1 !! data o1 = Some d1
    ∧ channels o1 = 1 ∧ width o1 = width o ∧ height o1 = height o).
  { destruct Hc as [Hc | Hc].
    - exists h, o, d. rewrite <- Hc at 1.
      by rewrite (convert_noop _ _ _ Himg).
    - destruct (grayscale_run h this o d) as (nd & Hrun & _);
        [done | done | done | lia |].
      eexists _, _, nd. split; [| split; [| split]].
      + apply (convert_1_run _ _ o _ this); [done | lia | done].
      + by apply converted_image.
      + apply converted_array.
      + done. }
  destruct Hgray as (h1 & o1 & d1 & Hrun1 & Himg1 & Harr1 & Hc1 & Hw1 & Hh1).
  destruct (rgb_run h1 this o1 d1) as (nd & Hrun & Hlen' & Hnd);
    [done | done | lia | rewrite Hw1, Hh1; lia |].
  rewrite Hw1, Hh1 in *.
  eexists. split.
  { rewrite (bind_run _ _ _ _ _ Hrun1).
    apply (convert_3_run _ _ o1 _ this); [done | lia | done]. }
  eexists _, nd. split; [| split; [| split; [| split; [| split; [| split]]]]].
  - by apply converted_image.
  - apply converted_array.
  - done.
  - done.
  - done.
  - unfold len. rewrite Hlen'. lia.
  - intros p Hp. eexists.
    rewrite !Hnd by lia.
    pose proof (block_of_three p 0 ltac:(lia)) as E0.
    rewrite Z.add_0_r in E0.
    rewrite E0, !block_of_three, Hc1 by lia. done.
Qed.

Lemma convert_gray_then_rgb_is_gray_witness :
  ∃ h',
    (let* img := convert 0%nat 1 in convert img 3) rgb_2x2
    = (h', inr 0%nat)
    ∧ gray_rgb_buffer h' 0%nat 2 2.
Proof.
  apply (convert_gray_then_rgb_is_gray rgb_2x2 0%nat (mkRawImage 0 2 2 3)
           [255; 0; 0; 0; 255; 0; 0; 0; 255; 255; 255; 255]);
    [reflexivity | reflexivity | right; left; reflexivity | simpl; lia
    | simpl; lia | reflexivity].
Defined.

(** ** Unsupported channel counts *)

Lemma grayscale_unsupported h this o :
  images h !! this = Some o →
  channels o ≠ 1 → channels o ≠ 3 → channels o ≠ 4 →
  0 ≤ width o * height o →
  fails_unsupported (grayscale this) h (channels o).
Proof.
  intros Himg H1 H3 H4 Hn. eexists. split; [| split; [| split]].
  - unfold grayscale.
    rewrite (bind_run _ _ _ _ _ (get_image_run _ _ _ Himg)).
    destruct (Z.eqb_spec (channels o) 1); [done |].
    destruct (Z.eqb_spec (channels o) 3); [done |].
    destruct (Z.eqb_spec (channels o) 4); [done |]. simpl.
    erewrite bind_run by (apply new_Uint8ClampedArray_run; lia).
    by erewrite bind_throw.
  - done.
  - done.
  - intros a d. apply lookup_snoc_old.
Qed.

Lemma rgb_unsupported h this o :
  images h !! this = Some o →
  channels o ≠ 1 → channels o ≠ 3 → channels o ≠ 4 →
  0 ≤ width o * height o →
  fails_unsupported (rgb this) h (channels o).
Proof.
  intros Himg H1 H3 H4 Hn. eexists. split; [| split; [| split]].
  - unfold rgb.
    rewrite (bind_run _ _ _ _ _ (get_image_run _ _ _ Himg)).
    destruct (Z.eqb_spec (channels o) 1); [done |].
    destruct (Z.eqb_spec (channels o) 3); [done |].
    destruct (Z.eqb_spec (channels o) 4); [done |].
    erewrite bind_run by (apply new_Uint8ClampedArray_run; lia).
    by erewrite bind_throw.
  - done.
  - done.
  - intros a d. apply lookup_snoc_old.
Qed.

Lemma rgba_unsupported h this o :
  images h !! this = Some o →
  channels o ≠ 1 → channels o ≠ 3 → channels o ≠ 4 →
  0 ≤ width o * height o →
  fails_unsupported (rgba this) h (channels o).
Proof.
  intros Himg H1 H3 H4 Hn. eexists. split; [| split; [| split]].
  - unfold rgba.
    rewrite (bind_run _ _ _ _ _ (get_image_run _ _ _ Himg)).
    destruct (Z.eqb_spec (channels o) 1); [done |].
    destruct (Z.eqb_spec (channels o) 3); [done |].
    destruct (Z.eqb_spec (channels o) 4); [done |].
    erewrite bind_run by (apply new_Uint8ClampedArray_run; lia).
    by erewrite bind_throw.
  - done.
  - done.
  - intros a d. apply lookup_snoc_old.
Qed.

Lemma convert_unsupported h this o n :
  images h !! this = Some o →
  channels o ≠ 1 → channels o ≠ 3 → channels o ≠ 4 →
  0 ≤ width o * height o →
  n ≠ channels o →
  fails_unsupported (convert this n) h (channels o).
Proof.
  intros Himg H1 H3 H4 Hn Hne.
  assert (Hvia : ∀ m : M loc, fails_unsupported m h (channels o) →
    fails_unsupported (let* _ := m in ret this) h (channels o)).
  { intros m (h' & Hrun & Hrest). exists h'. split; [| done].
    by rewrite (bind_throw _ _ _ _ _ Hrun). }
  unfold fails_unsupported, convert.
  rewrite (bind_run _ _ _ _ _ (get_image_run _ _ _ Himg)).
  destruct (Z.eqb_spec (channels o) n); [congruence |].
  destruct (Z.eqb_spec n 1);
    [by apply Hvia, (grayscale_unsupported _ _ o) |].
  destruct (Z.eqb_spec n 3); [by apply Hvia, (rgb_unsupported _ _ o) |].
  destruct (Z.eqb_spec n 4); [by apply Hvia, (rgba_unsupported _ _ o) |].
  exists h. by erewrite bind_throw.
Qed.

(** C8: on an instance whose channel count is none of 1, 3 and 4 (2, for
    one), [grayscale], [rgb], [rgba] and [convert] to any other count
    throw the unsupported-channel error, and the instance, its bytes and
    every other object are as before. *)
Theorem unsupported_channel_count_fails_atomically h this o :
  images h !! this = Some o →
  channels o ≠ 1 → channels o ≠ 3 → channels o ≠ 4 →
  0 ≤ width o * height o →
  fails_unsupported (grayscale this) h (channels o)
  ∧ fails_unsupported (rgb this) h (channels o)
  ∧ fails_unsupported (rgba this) h (channels o)
  ∧ ∀ n, n ≠ channels o → fails_unsupported (convert this n) h (channels o).
Proof.
  intros Himg H1 H3 H4 Hn.
  split; [by apply grayscale_unsupported |].
  split; [by apply rgb_unsupported |].
  split; [by apply rgba_unsupported |].
  intros n Hne. by apply convert_unsupported.
Qed.

Lemma unsupported_channel_count_fails_atomically_witness :
  fails_unsupported (grayscale 0%nat) two_channels 2
  ∧ fails_unsupported (rgb 0%nat) two_channels 2
  ∧ fails_unsupported (rgba 0%nat) two_channels 2
  ∧ ∀ n, n ≠ 2 → fails_unsupported (convert 0%nat n) two_channels 2.
Proof.
  apply (unsupported_channel_count_fails_atomically two_channels 0%nat
           (mkRawImage 0 1 1 2));
    [reflexivity | simpl; lia | simpl; lia | simpl; lia | simpl; lia].
Defined.

(** ** Frames: what a method leaves alone *)

Lemma heap_le_except_refl this h : heap_le_except this h h.
Proof. by split. Qed.

Lemma heap_le_except_trans this h1 h2 h3 :
  heap_le_except this h1 h2 → heap_le_except this h2 h3 →
  heap_le_except this h1 h3.
Proof. intros [Hi Ha] [Hi' Ha']. split; eauto. Qed.

(** Unfold a method down to the heap, and split on everything it
    branches on. *)
Ltac run_cases :=
  unfold with_offset, new_RawImage, new_Uint8ClampedArray, fill, _update;
  unfold bind, get_image, set_image, alloc_image, get_array, set_array,
    alloc_array, throw, ret;
  intros;
  repeat (case_match; simplify_eq/=).

Ltac frame_goal :=
  split; simpl;
  [ intros ? ? ? Hold; pose proof (lookup_lt_Some _ _ _ Hold);
    rewrite ?list_lookup_insert_ne by done;
    first [done | by apply lookup_snoc_old]
  | intros ? ? Hold; pose proof (lookup_lt_Some _ _ _ Hold);
    rewrite ?list_lookup_insert_ne by lia;
    first [done | by apply lookup_snoc_old] ].

Lemma grayscale_frame h this h' r :
  grayscale this h = (h', r) → heap_le_except this h h'.
Proof. unfold grayscale. run_cases; frame_goal. Qed.

Lemma rgb_frame h this h' r :
  rgb this h = (h', r) → heap_le_except this h h'.
Proof. unfold rgb. run_cases; frame_goal. Qed.

Lemma rgba_frame h this h' r :
  rgba this h = (h', r) → heap_le_except this h h'.
Proof. unfold rgba. run_cases; frame_goal. Qed.

Lemma convert_frame h this n h' r :
  convert this n h = (h', r) → heap_le_except this h h'.
Proof.
  unfold convert. unfold bind at 1, get_image.
  destruct (images h !! this) as [o|]; [| intros [= <- <-]; frame_goal].
  destruct (channels o =? n); [intros [= <- <-]; frame_goal |].
  unfold bind, ret, throw.
  repeat case_match; intros; simplify_eq; first
    [ by eapply grayscale_frame | by eapply rgb_frame | by eapply rgba_frame
    | frame_goal ].
Qed.

Lemma heap_le_fresh_except h h1 h2 cl :
  heap_le h h1 → images h !! cl = None → heap_le_except cl h1 h2 →
  heap_le h h2.
Proof.
  intros [Hi Ha] Hfresh [Hi' Ha']. split; [| by eauto].
  intros l o Hl. apply Hi'; [congruence | by apply Hi].
Qed.

Lemma clone_run h this o d :
  images h !! this = Some o →
  arrays h !! data o = Some d →
  clone this h
  = (mkHeap (arrays h ++ [d])
       (images h
        ++ [mkRawImage (length (arrays h)) (width o) (height o) (channels o)])
       (console h),
     inr (length (images h))).
Proof.
  intros Himg Harr. unfold clone.
  rewrite (bind_run _ _ _ _ _ (get_image_run _ _ _ Himg)).
  rewrite (bind_run _ _ _ _ _ (get_array_run _ _ _ Harr)).
  unfold alloc_array, new_RawImage, alloc_image, bind at 1 2. simpl.
  rewrite (_update_run _ _ (mkRawImage (length (arrays h)) (width o)
                              (height o) (channels o)))
    by (simpl; apply lookup_snoc_new).
  simpl. by rewrite insert_snoc_new.
Qed.

Lemma clone_frame h this h' r :
  clone this h = (h', r) →
  heap_le h h' ∧ ∀ cl, r = inr cl → cl = length (images h).
Proof.
  unfold clone. run_cases; (split; [| by intros ? [= <-]]).
  all: split; simpl; intros ? ? Hold; pose proof (lookup_lt_Some _ _ _ Hold);
    rewrite ?list_lookup_insert_ne by lia;
    first [done | by apply lookup_snoc_old].
Qed.

Section Properties.

Context (env : Env) `{CanvasAPI} `{SharpAPI} `{MathsAPI}.

(** [clone().rgba()], the start of [toImageData] and of [toCanvas]. *)
Lemma clone_rgba_frame h this h' r :
  (let* cloned := clone this in rgba cloned) h = (h', r) → heap_le h h'.
Proof.
  unfold bind. destruct (clone this h) as [h1 [e | cl]] eqn:Hclone.
  - intros [= <- <-]. by apply clone_frame in Hclone as [? _].
  - intros Hrgba. apply clone_frame in Hclone as [Hle Hcl].
    rewrite (Hcl cl eq_refl) in Hrgba.
    apply (heap_le_fresh_except h h1 h' (length (images h))); [done | |].
    + by apply lookup_ge_None.
    + by apply rgba_frame in Hrgba.
Qed.

Lemma toImageData_frame h this h' r :
  toImageData env this h = (h', r) → heap_le h h'.
Proof.
  unfold toImageData.
  destruct (IS_REACT_NATIVE env && negb (ImageDataClass_defined env));
    [by intros [= <- <-] |].
  rewrite <- bind_assoc. unfold bind at 1.
  destruct ((let* cloned := clone this in rgba cloned) h)
    as [h1 [e | cl]] eqn:Hclone; apply clone_rgba_frame in Hclone.
  - by intros [= <- <-].
  - unfold new_ImageDataClass. run_cases; done.
Qed.

Lemma toCanvas_frame h this h' r :
  toCanvas env this h = (h', r) → heap_le h h'.
Proof.
  unfold toCanvas.
  destruct (IS_REACT_NATIVE env && negb (createCanvasFunction_defined env));
    [by intros [= <- <-] |].
  rewrite <- bind_assoc. unfold bind at 1.
  destruct ((let* cloned := clone this in rgba cloned) h)
    as [h1 [e | cl]] eqn:Hclone; apply clone_rgba_frame in Hclone.
  - by intros [= <- <-].
  - unfold createCanvasFunction, new_ImageDataClass, ctx_putImageData.
    run_cases; done.
Qed.

(** ** Cloning *)

Lemma in_place_conversion_frame this m h h' r :
  in_place_conversion this m → m h = (h', r) → heap_le_except this h h'.
Proof.
  intros [-> | [-> | [-> | [n ->]]]] Hrun.
  - by eapply grayscale_frame.
  - by eapply rgb_frame.
  - by eapply rgba_frame.
  - by eapply convert_frame.
Qed.

(** C10: [clone()] returns a new instance whose [data] is a new array
    with the bytes of the original and whose size and channel count are
    the original's; whatever an in-place conversion of the original does
    afterwards, the clone and its bytes stay as they are; and
    [toImageData()] and [toCanvas()], which convert a clone, leave the
    instance's [data], [width], [height] and [channels], and the bytes,
    as they were, whether they return or throw. *)
Theorem clone_is_independent_copy h this o d :
  images h !! this = Some o →
  arrays h !! data o = Some d →
  (∃ h1 cl oc,
     clone this h = (h1, inr cl)
     ∧ images h !! cl = None ∧ arrays h !! data oc = None
     ∧ images h1 !! cl = Some oc ∧ arrays h1 !! data oc = Some d
     ∧ width oc = width o ∧ height oc = height o
     ∧ channels oc = channels o
     ∧ images h1 !! this = Some o ∧ arrays h1 !! data o = Some d
     ∧ ∀ m h2 r, in_place_conversion this m → m h1 = (h2, r) →
         images h2 !! cl = Some oc ∧ arrays h2 !! data oc = Some d)
  ∧ (∀ h' r, toImageData env this h = (h', r) →
       images h' !! this = Some o ∧ arrays h' !! data o = Some d)
  ∧ (∀ h' r, toCanvas env this h = (h', r) →
       images h' !! this = Some o ∧ arrays h' !! data o = Some d).
Proof.
  intros Himg Harr. split; [| split].
  - set (oc := mkRawImage (length (arrays h)) (width o) (height o)
                  (channels o)).
    exists (mkHeap (arrays h ++ [d]) (images h ++ [oc]) (console h)),
      (length (images h)), oc.
    split; [by apply clone_run |].
    pose proof (lookup_lt_Some _ _ _ Himg).
    pose proof (lookup_lt_Some _ _ _ Harr).
    simpl. split_and!; try done.
    + by apply lookup_ge_None.
    + by apply lookup_ge_None.
    + apply lookup_snoc_new.
    + apply lookup_snoc_new.
    + by apply lookup_snoc_old.
    + by apply lookup_snoc_old.
    + intros m h2 r Hm Hrun.
      destruct (in_place_conversion_frame _ _ _ _ _ Hm Hrun) as [Hi Ha].
      split; [apply Hi; [lia | apply lookup_snoc_new] |].
      apply Ha, lookup_snoc_new.
  - intros h' r [Hi Ha]%toImageData_frame. split; [by apply Hi | by apply Ha].
  - intros h' r [Hi Ha]%toCanvas_frame. split; [by apply Hi | by apply Ha].
Qed.

(** ** Padding by nothing *)

(** C7: [pad] uses its four offsets only after clamping each to at least
    0, and when the four clamped offsets are 0, negative offsets
    included, it returns the instance itself and changes nothing in the
    heap, on every backend. *)
Theorem pad_clamps_and_zero_is_identity this left right top bottom :
  pad env this left right top bottom
  = pad env this (Z.max left 0) (Z.max right 0) (Z.max top 0)
      (Z.max bottom 0)
  ∧ (left ≤ 0 → right ≤ 0 → top ≤ 0 → bottom ≤ 0 →
     ∀ h, pad env this left right top bottom h = (h, inr this)).
Proof.
  split.
  - unfold pad. by rewrite <- !Z.max_assoc, Z.max_id.
  - intros Hl Hr Ht Hb h. unfold pad.
    by rewrite !Z.max_r by done.
Qed.

(** ** Resampling methods on the sharp backend *)

Lemma sharp_run h this o d :
  images h !! this = Some o →
  arrays h !! data o = Some d →
  sharp this h
  = (h, inr (mkSharp d (width o) (height o) (channels o) [])).
Proof.
  intros Himg Harr. unfold sharp.
  rewrite (bind_run _ _ _ _ _ (get_image_run _ _ _ Himg)).
  by rewrite (bind_run _ _ _ _ _ (get_array_run _ _ _ Harr)).
Qed.

Lemma loadImageFunction_run h img :
  loadImageFunction img h
  = (mkHeap (arrays h ++ [(toBuffer img).1.1.1])
       (images h
        ++ [mkRawImage (length (arrays h)) (toBuffer img).1.1.2
              (toBuffer img).1.2 (toBuffer img).2])
       (console h),
     inr (length (images h))).
Proof.
  unfold loadImageFunction.
  destruct (toBuffer img) as [[[data' width'] height'] channels'].
  unfold alloc_array, new_RawImage, alloc_image, bind at 1 2. simpl.
  erewrite _update_run by (simpl; apply lookup_snoc_new).
  simpl. by rewrite insert_snoc_new.
Qed.

Lemma resize_switch_bilinear img this_width this_height width' height' h :
  resize_switch img this_width this_height width' height'
    (method_string "bilinear") h
  = (h, inr (scaled img this_width this_height width' height')).
Proof. reflexivity. Qed.

Lemma resize_switch_downgrade img this_width this_height width' height' s h :
  s = "box" ∨ s = "hamming" →
  resize_switch img this_width this_height width' height' (method_string s) h
  = (warned h (downgrade_warning s),
     inr (scaled img this_width this_height width' height')).
Proof. by intros [-> | ->]. Qed.

Lemma resize_sharp_unfold this width' height' resample h o d :
  IS_REACT_NATIVE env = false →
  BROWSER_ENV env = false →
  images h !! this = Some o →
  arrays h !! data o = Some d →
  resize env this width' height' (Some resample) h
  = (let* img := resize_switch
                   (mkSharp d (width o) (height o) (channels o) [])
                   (width o) (height o) width' height'
                   (resolve_resample resample) in
     loadImageFunction img) h.
Proof.
  intros Hrn Hbrowser Himg Harr. unfold resize. rewrite Hrn, Hbrowser.
  rewrite (bind_run _ _ _ _ _ (sharp_run _ _ _ _ Himg Harr)).
  by rewrite (bind_run _ _ _ _ _ (get_image_run _ _ _ Himg)).
Qed.

Lemma outside_table_throws img this_width this_height width' height'
    resample h :
  outside_table resample →
  resize_switch img this_width this_height width' height'
    (resolve_resample resample) h
  = (h, inl (UnsupportedResampleMethod (resolve_resample resample))).
Proof.
  destruct resample as [n | s]; unfold outside_table, resolve_resample.
  - intros Hn. unfold RESAMPLING_MAPPING.
    repeat match goal with
           | |- context [n =? ?k] => destruct (Z.eqb_spec n k); [lia |]
           end.
    done.
  - intros [Hs ->].
    destruct (existsb (String.eqb s) Object_prototype_keys); [done |].
    unfold resize_switch, resample_names in *.
    repeat match goal with
           | |- context [String.eqb s ?t] =>
               destruct (String.eqb_spec s t);
               [subst s; exfalso; apply Hs, list_elem_of_In; simpl; tauto |]
           end.
    done.
Qed.

(** C9: on the sharp backend, [resize] with the method [box] or
    [hamming], given by code or by name, returns what [resize] with
    [bilinear] returns and leaves the same heap but for one warning on
    the console; and [resize] with a code that is none of 0..5, or with
    a name that is neither one of the six names nor the decimal form of
    a code, throws the unsupported-method error and changes nothing. *)
Theorem resize_sharp_downgrades_or_rejects h this o d width' height' :
  IS_REACT_NATIVE env = false →
  BROWSER_ENV env = false →
  images h !! this = Some o →
  arrays h !! data o = Some d →
  (∀ resample s,
     resolve_resample resample = method_string s →
     s = "box" ∨ s = "hamming" →
     ∃ h1 img,
       resize env this width' height' (Some (name "bilinear")) h
       = (h1, inr img)
       ∧ resize env this width' height' (Some (code 2)) h = (h1, inr img)
       ∧ resize env this width' height' None h = (h1, inr img)
       ∧ resize env this width' height' (Some resample) h
         = (warned h1 (downgrade_warning s), inr img))
  ∧ (∀ resample,
       outside_table resample →
       resize env this width' height' (Some resample) h
       = (h, inl (UnsupportedResampleMethod (resolve_resample resample)))).
Proof.
  intros Hrn Hbrowser Himg Harr. split.
  - intros resample s Hs Hbox.
    assert (Hbilinear : ∀ r,
      resolve_resample r = method_string "bilinear" →
      resize env this width' height' (Some r) h
      = loadImageFunction
          (scaled (mkSharp d (width o) (height o) (channels o) [])
             (width o) (height o) width' height') h).
    { intros r Hr. rewrite (resize_sharp_unfold _ _ _ _ _ o d), Hr by done.
      by rewrite (bind_run _ _ _ _ _ (resize_switch_bilinear _ _ _ _ _ _)). }
    eexists _, _. split; [| split; [| split]].
    + rewrite (Hbilinear (name "bilinear")) by done.
      apply loadImageFunction_run.
    + rewrite (Hbilinear (code 2)) by done. apply loadImageFunction_run.
    + change (resize env this width' height' None h)
        with (resize env this width' height' (Some (code 2)) h).
      rewrite (Hbilinear (code 2)) by done. apply loadImageFunction_run.
    + rewrite (resize_sharp_unfold _ _ _ _ _ o d), Hs by done.
      rewrite (bind_run _ _ _ _ _
                 (resize_switch_downgrade _ _ _ _ _ _ _ Hbox)).
      by rewrite loadImageFunction_run.
  - intros resample Hout.
    rewrite (resize_sharp_unfold _ _ _ _ _ o d) by done.
    by rewrite (bind_throw _ _ _ _ _
                  (outside_table_throws _ _ _ _ _ _ _ Hout)).
Qed.

(** ** The canvas branches *)

Lemma clone_rgba_run h this o d :
  images h !! this = Some o →
  arrays h !! data o = Some d →
  channels o = 1 ∨ channels o = 3 ∨ channels o = 4 →
  0 ≤ width o * height o →
  ∃ h1 cl oc dc,
    (let* cloned := clone this in rgba cloned) h = (h1, inr cl)
    ∧ images h1 !! cl = Some oc ∧ arrays h1 !! data oc = Some dc
    ∧ width oc = width o ∧ height oc = height o ∧ channels oc = 4.
Proof.
  intros Himg Harr Hc Hn.
  rewrite (bind_run _ _ _ _ _ (clone_run _ _ _ _ Himg Harr)).
  set (oc := mkRawImage (length (arrays h)) (width o) (height o)
               (channels o)).
  set (h' := mkHeap (arrays h ++ [d]) (images h ++ [oc]) (console h)).
  assert (Himg' : images h' !! length (images h) = Some oc)
    by apply lookup_snoc_new.
  assert (Harr' : arrays h' !! data oc = Some d) by apply lookup_snoc_new.
  destruct (Z.eq_dec (channels o) 4) as [H4 | H4].
  - exists h', (length (images h)), oc, d.
    by rewrite (rgba_noop _ _ _ Himg' H4).
  - destruct (rgba_run h' (length (images h)) oc d) as (nd & Hrun & _);
      [done | done | simpl; lia | done |].
    eexists _, _, _, nd. split; [exact Hrun |].
    split; [by apply converted_image |].
    split; [apply converted_array | done].
Qed.

Lemma toCanvas_run h this o d :
  createCanvasFunction_defined env = true →
  IS_REACT_NATIVE env || OffscreenCanvas_defined env = true →
  ImageDataClass_defined env = true →
  images h !! this = Some o →
  arrays h !! data o = Some d →
  channels o = 1 ∨ channels o = 3 ∨ channels o = 4 →
  0 ≤ width o * height o →
  ∃ h1 canvas, toCanvas env this h = (h1, inr canvas).
Proof.
  intros Hcanvas Hoff Hid Himg Harr Hc Hn.
  destruct (clone_rgba_run h this o d Himg Harr Hc Hn)
    as (h1 & cl & oc & dc & Hrun & Himg1 & Harr1 & _).
  unfold toCanvas, createCanvasFunction, new_ImageDataClass, ctx_putImageData.
  rewrite Hcanvas, Hid, andb_false_r. simpl.
  replace (negb (IS_REACT_NATIVE env) && negb (OffscreenCanvas_defined env))
    with false by (by destruct (IS_REACT_NATIVE env),
                        (OffscreenCanvas_defined env)).
  rewrite <- bind_assoc, (bind_run _ _ _ _ _ Hrun).
  rewrite (bind_run _ _ _ _ _ (get_image_run _ _ _ Himg1)).
  unfold bind at 1 2, ret. simpl.
  rewrite (bind_run _ _ _ _ _ (get_array_run _ _ _ Harr1)).
  by eexists _, _.
Qed.

Lemma RawImage_of_canvas_run h canvas width' height' :
  RawImage_of_canvas canvas width' height' h
  = (mkHeap (arrays h ++ [getImageData canvas 0 0 width' height'])
       (images h ++ [mkRawImage (length (arrays h)) width' height' 4])
       (console h),
     inr (length (images h))).
Proof.
  unfold RawImage_of_canvas, alloc_array, new_RawImage, alloc_image,
    bind at 1 2.
  simpl. erewrite _update_run by (simpl; apply lookup_snoc_new).
  simpl. by rewrite insert_snoc_new.
Qed.

Lemma canvas_to_gray h canvas width' height' :
  0 < width' → 0 < height' →
  ∃ h' img,
    (let* resized := RawImage_of_canvas canvas width' height' in
     convert resized 1) h = (h', inr img)
    ∧ gray_with_three_bytes h' img width' height'.
Proof.
  intros Hw Hh.
  rewrite (bind_run _ _ _ _ _ (RawImage_of_canvas_run _ _ _ _)).
  set (o := mkRawImage (length (arrays h)) width' height' 4).
  set (h1 := mkHeap _ _ _).
  assert (Himg : images h1 !! length (images h) = Some o)
    by apply lookup_snoc_new.
  destruct (grayscale_run h1 (length (images h)) o
              (getImageData canvas 0 0 width' height'))
    as (nd & Hrun & Hlen & _);
    [done | apply lookup_snoc_new | by right | simpl; lia |].
  eexists _, _. split.
  { apply (convert_1_run _ _ o _ (length (images h)) Himg);
      [done | exact Hrun]. }
  eexists _, nd. split; [by apply converted_image |].
  split; [apply converted_array |].
  simpl. unfold len. rewrite Hlen. simpl in *. lia.
Qed.

(** ** Resizing a grayscale image in the browser *)

(** C5, on the code: in the browser, [resize] of a valid 1-channel buffer
    to [width] by [height], both at least 1, with any resample option,
    returns an instance with that width and height and 1 channel whose
    [data] has [3 * width * height] bytes, three times
    [width * height * channels]: the canvas gives an RGBA image, and the
    conversion back to 1 channel is [grayscale], which allocates
    [width * height * 3] bytes. *)
Theorem resize_browser_gray_three_bytes h this o d width' height' resample :
  IS_REACT_NATIVE env = false →
  BROWSER_ENV env = true →
  createCanvasFunction_defined env = true →
  OffscreenCanvas_defined env = true →
  ImageDataClass_defined env = true →
  images h !! this = Some o →
  arrays h !! data o = Some d →
  channels o = 1 → 0 < width o → 0 < height o →
  len d = width o * height o * channels o →
  0 < width' → 0 < height' →
  ∃ h' img,
    resize env this width' height' resample h = (h', inr img)
    ∧ gray_with_three_bytes h' img width' height'.
Proof.
  intros Hrn Hbrowser Hcanvas Hoff Hid Himg Harr Hc Hw Hh Hlen Hw' Hh'.
  destruct (toCanvas_run h this o d) as (h1 & canvas & Hrun);
    [done | by rewrite Hoff, orb_true_r | done | done | done | lia | lia |].
  unfold resize. rewrite Hrn, Hbrowser.
  rewrite (bind_run _ _ _ _ _ (get_image_run _ _ _ Himg)).
  rewrite (bind_run _ _ _ _ _ Hrun).
  unfold createCanvasFunction. rewrite Hrn, Hcanvas, Hoff. simpl.
  unfold bind at 1, ret. rewrite Hc.
  apply canvas_to_gray; done.
Qed.

End Properties.

(** * The claims on concrete images *)

Lemma clone_is_independent_copy_witness :
  (∃ h1 cl oc,
     clone 0%nat gray_2x2 = (h1, inr cl)
     ∧ images gray_2x2 !! cl = None ∧ arrays gray_2x2 !! data oc = None
     ∧ images h1 !! cl = Some oc ∧ arrays h1 !! data oc = Some [5; 6; 7; 8]
     ∧ width oc = 2 ∧ height oc = 2 ∧ channels oc = 1
     ∧ images h1 !! 0%nat = Some (mkRawImage 0 2 2 1)
     ∧ arrays h1 !! 0%nat = Some [5; 6; 7; 8]
     ∧ ∀ m h2 r, in_place_conversion 0%nat m → m h1 = (h2, r) →
         images h2 !! cl = Some oc ∧ arrays h2 !! data oc = Some [5; 6; 7; 8])
  ∧ (∀ h' r, toImageData browser 0%nat gray_2x2 = (h', r) →
       images h' !! 0%nat = Some (mkRawImage 0 2 2 1)
       ∧ arrays h' !! 0%nat = Some [5; 6; 7; 8])
  ∧ (∀ h' r, toCanvas browser 0%nat gray_2x2 = (h', r) →
       images h' !! 0%nat = Some (mkRawImage 0 2 2 1)
       ∧ arrays h' !! 0%nat = Some [5; 6; 7; 8]).
Proof.
  apply (clone_is_independent_copy browser gray_2x2 0%nat
           (mkRawImage 0 2 2 1) [5; 6; 7; 8]); reflexivity.
Defined.

Lemma pad_clamps_and_zero_is_identity_witness :
  pad browser 0%nat (-1) 0 0 (-3)
  = pad browser 0%nat (Z.max (-1) 0) (Z.max 0 0) (Z.max 0 0) (Z.max (-3) 0)
  ∧ ∀ h, pad browser 0%nat (-1) 0 0 (-3) h = (h, inr 0%nat).
Proof.
  destruct (pad_clamps_and_zero_is_identity browser 0%nat (-1) 0 0 (-3))
    as [Hclamp Hzero].
  split; [exact Hclamp |].
  apply Hzero; lia.
Defined.

Lemma resize_sharp_downgrades_or_rejects_witness :
  (∀ resample s,
     resolve_resample resample = method_string s →
     s = "box" ∨ s = "hamming" →
     ∃ h1 img,
       resize node_sharp 0%nat 3 3 (Some (name "bilinear")) gray_2x2
       = (h1, inr img)
       ∧ resize node_sharp 0%nat 3 3 (Some (code 2)) gray_2x2 = (h1, inr img)
       ∧ resize node_sharp 0%nat 3 3 None gray_2x2 = (h1, inr img)
       ∧ resize node_sharp 0%nat 3 3 (Some resample) gray_2x2
         = (warned h1 (downgrade_warning s), inr img))
  ∧ (∀ resample,
       outside_table resample →
       resize node_sharp 0%nat 3 3 (Some resample) gray_2x2
       = (gray_2x2,
          inl (UnsupportedResampleMethod (resolve_resample resample)))).
Proof.
  apply (resize_sharp_downgrades_or_rejects node_sharp gray_2x2 0%nat
           (mkRawImage 0 2 2 1) [5; 6; 7; 8] 3 3); reflexivity.
Defined.

Lemma resize_browser_gray_three_bytes_witness :
  ∃ h' img,
    resize browser 0%nat 1 1 None gray_2x2 = (h', inr img)
    ∧ gray_with_three_bytes h' img 1 1.
Proof.
  apply (resize_browser_gray_three_bytes browser gray_2x2 0%nat
           (mkRawImage 0 2 2 1) [5; 6; 7; 8] 1 1 None);
    first [reflexivity | simpl; lia].
Defined.

(** ** The length invariant after [grayscale] *)

(** C1, on the code: [grayscale] of a valid buffer with 3 or 4 channels
    returns the instance with 1 channel and a [data] of
    [3 * width * height] bytes, not [width * height * channels]: the new
    array is allocated with [width * height * 3] bytes for a 1-channel
    result. *)
Theorem grayscale_allocates_three_bytes_per_pixel h this o d :
  images h !! this = Some o →
  arrays h !! data o = Some d →
  channels o = 3 ∨ channels o = 4 →
  0 < width o → 0 < height o →
  len d = width o * height o * channels o →
  ∃ h',
    grayscale this h = (h', inr this)
    ∧ gray_with_three_bytes h' this (width o) (height o).
Proof.
  intros Himg Harr Hc Hw Hh Hlen.
  destruct (grayscale_run h this o d) as (nd & Hrun & Hlen' & _);
    [done | done | done | lia |].
  eexists. split; [exact Hrun |].
  eexists _, nd. split; [by apply converted_image |].
  split; [apply converted_array |].
  simpl. unfold len. rewrite Hlen'. lia.
Qed.

Lemma grayscale_allocates_three_bytes_per_pixel_witness :
  ∃ h',
    grayscale 0%nat rgb_2x2 = (h', inr 0%nat)
    ∧ gray_with_three_bytes h' 0%nat 2 2.
Proof.
  apply (grayscale_allocates_three_bytes_per_pixel rgb_2x2 0%nat
           (mkRawImage 0 2 2 3)
           [255; 0; 0; 0; 255; 0; 0; 0; 255; 255; 255; 255]);
    first [reflexivity | simpl; lia | by left].
Defined.

(** C4, on the code: [grayscale] of the 2 by 2 RGB image red, green,
    blue, white leaves a 1-channel instance whose [data] holds the four
    lumas 76, 150, 29, 255 followed by eight zero bytes: twelve values,
    not four. *)
Theorem grayscale_of_rgb_2x2 :
  grayscale 0%nat rgb_2x2
  = (mkHeap
       [[255; 0; 0; 0; 255; 0; 0; 0; 255; 255; 255; 255];
        [76; 150; 29; 255; 0; 0; 0; 0; 0; 0; 0; 0]]
       [mkRawImage 1 2 2 1] [],
     inr 0%nat).
Proof. vm_compute. reflexivity. Qed.

(** C2, on the code: without a canvas, [pad([1, 0, 0, 0])] of the single
    gray pixel 7 returns a 2 by 1 image whose bytes are 7, 0: the pixel
    is at column 0, not at column [left = 1], and the fill is on the
    right. *)
Theorem pad_fallback_ignores_offsets `{CanvasAPI} `{SharpAPI} `{MathsAPI} :
  pad react_native_fallback 0%nat 1 0 0 0 gray_1x1
  = (mkHeap [[7]; [7; 0]] [mkRawImage 0 1 1 1; mkRawImage 1 2 1 1] [],
     inr 1%nat).
Proof. vm_compute. reflexivity. Qed.

(** C3, on the code: without a canvas, [center_crop(2, 1)] of the row of
    gray pixels 10, 20, 30 has [width_offset = 0.5] and returns the bytes
    0, 0, not the window 10, 20 that starts at [floor(0.5) = 0]: the
    source index is not an integer, and the read is [undefined]. *)
Theorem center_crop_fallback_reads_between_pixels
    `{CanvasAPI} `{SharpAPI} `{MathsAPI} :
  center_crop react_native_fallback 0%nat 2 1 gray_3x1
  = (mkHeap [[10; 20; 30]; [0; 0]]
       [mkRawImage 0 3 1 1; mkRawImage 1 2 1 1] [],
     inr 1%nat).
Proof. vm_compute. reflexivity. Qed.

(** * The fallback branches of [pad] and [center_crop] *)

(** The inner loop [for (j = 0; j < c; j++) a[base + j] = v(j)] writes the
    block of [c] bytes at [base]. *)
Lemma for_j_block c base (v : Z → number) a :
  length (for_j c (λ j a, ta_set a (base + j) (v j)) a) = length a
  ∧ ∀ q, ta_get (for_j c (λ j a, ta_set a (base + j) (v j)) a) q
         = if bool_decide (base ≤ q < base + c ∧ 0 ≤ q < len a)
           then Some (ToUint8Clamp (v (q - base))) else ta_get a q.
Proof.
  pose proof (for_j_inv
    (λ n b, length b = length a
            ∧ ∀ q, ta_get b q
                   = if bool_decide (base ≤ q < base + n ∧ 0 ≤ q < len a)
                     then Some (ToUint8Clamp (v (q - base)))
                     else ta_get a q)
    c (λ j a, ta_set a (base + j) (v j)) a) as Hinv.
  simpl in Hinv.
  destruct Hinv as [Hlen Hget].
  - split; [done |]. intros q. by rewrite bool_decide_false by lia.
  - intros j b Hj [Hlen Hget]. split; [by rewrite ta_set_length |].
    intros q. rewrite ta_get_set, Hget. unfold len in *. rewrite Hlen.
    repeat case_bool_decide; try done; try lia.
    repeat f_equal; lia.
  - split; [done |]. intros q. rewrite Hget.
    repeat case_bool_decide; try done; lia.
Qed.

(** A loop over pixels whose [k]-th iteration writes the block of [c]
    bytes at [dst k], the blocks being disjoint: every block holds what
    its iteration wrote, and every other byte is 0. *)
Lemma scatter_loop c n stop (body : Z → list Z → list Z)
    (dst : Z → Z) (val : Z → Z → Z) :
  0 < c →
  (∀ k a, 0 ≤ k →
     length (body (k * c) a) = length a
     ∧ ∀ q, ta_get (body (k * c) a) q
            = if bool_decide (dst k ≤ q < dst k + c ∧ 0 ≤ q < len a)
              then Some (val k (q - dst k)) else ta_get a q) →
  (∀ k k', 0 ≤ k < k' → k' * c < stop →
           dst k + c ≤ dst k' ∨ dst k' + c ≤ dst k) →
  ∃ nd,
    for_ 0 stop c body (replicate (Z.to_nat n) 0) = Some nd
    ∧ length nd = Z.to_nat n
    ∧ (∀ k j, 0 ≤ k → k * c < stop → 0 ≤ j < c → 0 ≤ dst k + j < n →
         ta_get nd (dst k + j) = Some (val k j))
    ∧ (∀ q, 0 ≤ q < n →
         (∀ k, 0 ≤ k → k * c < stop → ¬ (dst k ≤ q < dst k + c)) →
         ta_get nd q = Some 0).
Proof.
  intros Hc Hbody Hdisjoint.
  destruct (for_inv
    (λ i a, ∃ m, 0 ≤ m ∧ i = m * c ∧ (m = 0 ∨ (m - 1) * c < stop)
       ∧ length a = Z.to_nat n
       ∧ (∀ k j, 0 ≤ k < m → 0 ≤ j < c → 0 ≤ dst k + j < n →
            ta_get a (dst k + j) = Some (val k j))
       ∧ (∀ q, 0 ≤ q < n →
            (∀ k, 0 ≤ k < m → ¬ (dst k ≤ q < dst k + c)) →
            ta_get a q = Some 0))
    0 stop c body (replicate (Z.to_nat n) 0) Hc)
    as (i & nd & Hrun & (m & Hm & -> & Hlast & Hlen & Hin & Hout) & Hstop).
  - exists 0. rewrite length_replicate.
    split_and!; try done; try lia.
    intros q Hq _. by apply ta_get_replicate.
  - intros i a Hi (m & Hm & -> & Hlast & Hlen & Hin & Hout).
    destruct (Hbody m a Hm) as [Hlen' Hget].
    exists (m + 1). split_and!; try lia.
    + intros k j Hk Hj Hkj. rewrite Hget.
      destruct (Z.eq_dec k m) as [-> | Hne].
      * rewrite bool_decide_true by (unfold len; lia).
        do 2 f_equal. lia.
      * assert (dst k + c ≤ dst m ∨ dst m + c ≤ dst k)
          by (apply Hdisjoint; lia).
        rewrite bool_decide_false by lia. apply Hin; lia.
    + intros q Hq Hfree. rewrite Hget.
      rewrite bool_decide_false.
      * apply Hout; [done |]. intros k Hk. apply Hfree. lia.
      * intros [Hblock _]. apply (Hfree m); lia.
  - exists nd. split; [done |]. split; [done |].
    assert (Hiff : ∀ k, 0 ≤ k → (k < m ↔ k * c < stop)).
    { intros k Hk. split; intros Hlt.
      - destruct Hlast as [-> | Hlast]; [lia |].
        assert (k * c ≤ (m - 1) * c) by (apply Z.mul_le_mono_nonneg_r; lia).
        lia.
      - destruct (Z.lt_ge_cases k m) as [| Hge]; [done |].
        apply (Z.mul_le_mono_nonneg_r _ _ c) in Hge; lia. }
    split.
    + intros k j Hk Hlt Hj Hkj. apply Hin; [| done | done].
      split; [done |]. by apply Hiff.
    + intros q Hq Hfree. apply Hout; [done |].
      intros k [Hk Hlt]. apply Hfree; [done |]. by apply Hiff.
Qed.

Lemma flat_index_unique w a b a' b' :
  0 ≤ b < w → 0 ≤ b' < w → a * w + b = a' * w + b' → a = a' ∧ b = b'.
Proof. intros Hb Hb' Heq. assert (a = a') by nia. subst. lia. Qed.

Lemma flat_index_div_mod w x y :
  0 ≤ x < w → (y * w + x) / w = y ∧ (y * w + x) mod w = x.
Proof.
  intros Hx.
  pose proof (Z.div_mod (y * w + x) w ltac:(lia)) as Hdm.
  pose proof (Z.mod_pos_bound (y * w + x) w ltac:(lia)) as Hmod.
  apply (flat_index_unique w); [lia | lia | lia].
Qed.

(** Allocate, fill, wrap in a new instance: the shape of the fallback
    branches. *)
Lemma fresh_image_run h n loop nd width' height' channels' :
  0 ≤ n →
  loop (replicate (Z.to_nat n) 0) = Some nd →
  (let* a := new_Uint8ClampedArray n in
   let* _ := fill a loop in
   new_RawImage a width' height' channels') h
  = (mkHeap (arrays h ++ [nd])
       (images h ++ [mkRawImage (length (arrays h)) width' height' channels'])
       (console h),
     inr (length (images h))).
Proof.
  intros Hn Hloop.
  rewrite (bind_run _ _ _ _ _ (new_Uint8ClampedArray_run h n Hn)).
  erewrite bind_run
    by (eapply fill_run; [simpl; apply lookup_snoc_new | done]).
  unfold new_RawImage, alloc_image, bind at 1. simpl.
  erewrite _update_run by (simpl; apply lookup_snoc_new).
  simpl. by rewrite !insert_snoc_new.
Qed.

Lemma pad_body_block d c w w' k a :
  0 < c → 0 < w → 0 ≤ k →
  length (pad_body d c w w' (k * c) a) = length a
  ∧ ∀ q, ta_get (pad_body d c w w' (k * c) a) q
         = if bool_decide (pad_destination w w' c k ≤ q
                             < pad_destination w w' c k + c
                           ∧ 0 ≤ q < len a)
           then Some (ToUint8Clamp
                        (ToNumber
                           (ta_get d (k * c + (q - pad_destination w w' c k)))))
           else ta_get a q.
Proof.
  intros Hc Hw Hk. unfold pad_body, pad_destination.
  destruct (Z.eqb_spec w 0); [lia |].
  rewrite Z.div_mul by lia.
  apply (for_j_block c _ (λ j, ToNumber (ta_get d (k * c + j)))).
Qed.

Lemma pad_destination_increasing w w' c k k' :
  0 < c → 0 < w ≤ w' → 0 ≤ k < k' →
  pad_destination w w' c k + c ≤ pad_destination w w' c k'.
Proof.
  intros Hc Hw Hk. unfold pad_destination.
  rewrite !Z.rem_mod_nonneg by lia.
  pose proof (Z.div_mod k w ltac:(lia)).
  pose proof (Z.div_mod k' w ltac:(lia)).
  pose proof (Z.mod_pos_bound k w ltac:(lia)).
  pose proof (Z.mod_pos_bound k' w ltac:(lia)).
  assert (k / w ≤ k' / w) by (apply Z.div_le_mono; lia).
  assert (k / w * w' + k mod w + 1 ≤ k' / w * w' + k' mod w); [| nia].
  destruct (Z.eq_dec (k / w) (k' / w)) as [Heq | Hne]; [rewrite Heq in *; lia |].
  assert (k / w * w' + w' ≤ k' / w * w') by nia. lia.
Qed.

Lemma clamp_byte d i :
  bytes d → ToUint8Clamp (ToNumber (ta_get d i)) = default 0 (ta_get d i).
Proof.
  intros Hd. unfold ta_get. destruct (i <? 0); [done |].
  destruct (d !! Z.to_nat i) as [v |] eqn:Hv; [| done].
  apply (Forall_lookup_1 _ _ _ _ Hd) in Hv. simpl. lia.
Qed.

Lemma Q_integral_inject_Z q z : (q == inject_Z z)%Q → Q_integral q = Some z.
Proof.
  unfold Qeq, Q_integral. simpl. rewrite Z.mul_1_r. intros ->.
  rewrite Z.mod_mul, Z.div_mul by lia. done.
Qed.

Lemma half_of_even n a : n = 2 * a → (inject_Z n / 2 == inject_Z a)%Q.
Proof. intros ->. rewrite inject_Z_mult. field. Qed.

Lemma center_crop_body_block d c w cw wo ho a b k arr :
  (wo == inject_Z a)%Q → (ho == inject_Z b)%Q →
  0 < c → 0 ≤ k →
  let x := Z.rem k cw in
  let y := k / cw in
  length (center_crop_body d c w cw wo ho (k * c) arr) = length arr
  ∧ ∀ q, ta_get (center_crop_body d c w cw wo ho (k * c) arr) q
         = if bool_decide (k * c ≤ q < k * c + c ∧ 0 ≤ q < len arr)
           then Some (ToUint8Clamp
                        (ToNumber
                           (ta_get d (((y + b) * w + (x + a)) * c
                                      + (q - k * c)))))
           else ta_get arr q.
Proof.
  intros Hwo Hho Hc Hk x y. unfold center_crop_body.
  rewrite Z.div_mul by lia. fold x y.
  pose proof (for_j_block c (k * c)
    (λ j, ToNumber
            (ta_get_Q d
               (((inject_Z y + ho) * inject_Z w + (inject_Z x + wo))
                * inject_Z c + inject_Z j)%Q))
    arr) as [Hlen Hget].
  split; [exact Hlen |]. intros q. rewrite Hget.
  case_bool_decide; [| done].
  unfold ta_get_Q.
  rewrite (Q_integral_inject_Z _ (((y + b) * w + (x + a)) * c + (q - k * c)));
    [done |].
  rewrite Hwo, Hho.
  repeat (rewrite inject_Z_plus || rewrite inject_Z_mult). reflexivity.
Qed.

Section Fallback.

Context (env : Env) `{CanvasAPI} `{SharpAPI} `{MathsAPI}.

(** What the fallback [pad] does: the new image has the padded size, the
    original pixel [(x, y)] is at [(x, y)], whatever [left] and [top]
    are, and every pixel outside the original size is zero. *)
Theorem pad_fallback_keeps_pixels_in_place h this o d left right top bottom :
  IS_REACT_NATIVE env = true →
  createCanvasFunction_defined env && useGCanvas env = false →
  images h !! this = Some o →
  arrays h !! data o = Some d →
  bytes d →
  0 < channels o → 0 < width o → 0 < height o →
  len d = width o * height o * channels o →
  0 ≤ left → 0 ≤ right → 0 ≤ top → 0 ≤ bottom →
  0 < left + right + top + bottom →
  ∃ h' img,
    pad env this left right top bottom h = (h', inr img)
    ∧ holds_pixels h' img (width o + left + right) (height o + top + bottom)
        (channels o) (byte_at d (width o) (height o) (channels o)).
Proof.
  intros Hrn Hcanvas Himg Harr Hd Hc Hw Hh Hlen Hl Hr Ht Hb Hsome.
  set (c := channels o) in *. set (w := width o) in *.
  set (w' := w + left + right). set (h0 := height o) in *.
  set (h1 := h0 + top + bottom).
  assert (Hw' : w ≤ w') by (unfold w'; lia).
  assert (Hh' : h0 ≤ h1) by (unfold h1; lia).
  assert (Hn : 0 ≤ w' * h1 * c) by (apply Z.mul_nonneg_nonneg; nia).
  destruct (scatter_loop c (w' * h1 * c) (len d) (pad_body d c w w')
              (pad_destination w w' c)
              (λ k j, ToUint8Clamp (ToNumber (ta_get d (k * c + j)))) Hc)
    as (nd & Hloop & Hlen' & Hin & Hout).
  { intros k a Hk. by apply pad_body_block. }
  { intros k k' Hk _. left. apply pad_destination_increasing; lia. }
  eexists _, _. split.
  - unfold pad. rewrite !Z.max_l by lia. rewrite Hrn, Hcanvas.
    replace ((left =? 0) && (right =? 0) && (top =? 0) && (bottom =? 0))
      with false
      by (symmetry; rewrite !andb_false_iff, !Z.eqb_neq; lia).
    rewrite (bind_run _ _ _ _ _ (get_image_run _ _ _ Himg)).
    rewrite (bind_run _ _ _ _ _ (get_array_run _ _ _ Harr)).
    apply (fresh_image_run h (w' * h1 * c)); [done | exact Hloop].
  - eexists _, nd. split; [apply lookup_snoc_new |].
    split; [apply lookup_snoc_new |]. simpl.
    split_and!; try done.
    { unfold len. rewrite Hlen'. lia. }
    intros x y j Hx Hy Hj.
    assert (0 ≤ (y * w' + x) * c + j < w' * h1 * c).
    { assert (y * w' + x + 1 ≤ w' * h1) by nia. nia. }
    unfold byte_at. fold w h0 c.
    destruct (Z.leb_spec 0 x); [| lia]. destruct (Z.leb_spec 0 y); [| lia].
    destruct (Z.ltb_spec x w) as [Hxw | Hxw];
      [destruct (Z.ltb_spec y h0) as [Hyh | Hyh] |]; simpl.
    + destruct (flat_index_div_mod w x y ltac:(lia)) as [Hdiv Hmod].
      assert (Hdst : pad_destination w w' c (y * w + x) = (y * w' + x) * c).
      { unfold pad_destination.
        by rewrite Z.rem_mod_nonneg, Hdiv, Hmod by nia. }
      assert (y * w + x + 1 ≤ w * h0) by nia.
      assert ((y * w + x) * c < len d) by (rewrite Hlen; nia).
      rewrite <- Hdst, (Hin (y * w + x) j); [| nia | done | done | lia].
      by rewrite clamp_byte.
    + apply Hout; [done |]. intros k Hk Hlt [Hlo Hhi].
      unfold pad_destination in *. rewrite Z.rem_mod_nonneg in * by lia.
      pose proof (Z.mod_pos_bound k w ltac:(lia)).
      pose proof (Z.div_mod k w ltac:(lia)).
      assert (0 ≤ k / w) by (apply Z.div_pos; lia).
      assert (Heq : y * w' + x = k / w * w' + k mod w) by nia.
      apply (flat_index_unique w') in Heq as [-> _]; [| lia | lia].
      nia.
    + apply Hout; [done |]. intros k Hk Hlt [Hlo Hhi].
      unfold pad_destination in *. rewrite Z.rem_mod_nonneg in * by lia.
      pose proof (Z.mod_pos_bound k w ltac:(lia)).
      assert (Heq : y * w' + x = k / w * w' + k mod w) by nia.
      apply (flat_index_unique w') in Heq as [_ ->]; lia.
Qed.

(** What the fallback [center_crop] does when both size differences are
    even and not negative: it extracts the window whose top-left source
    pixel is [(width_offset, height_offset)]. *)
Theorem center_crop_fallback_even_difference h this o d crop_width
    crop_height a b :
  IS_REACT_NATIVE env = true →
  createCanvasFunction_defined env && useGCanvas env = false →
  images h !! this = Some o →
  arrays h !! data o = Some d →
  bytes d →
  0 < channels o → 0 < width o → 0 < height o →
  len d = width o * height o * channels o →
  0 < crop_width → 0 < crop_height →
  width o - crop_width = 2 * a → height o - crop_height = 2 * b →
  0 ≤ a → 0 ≤ b → 0 < a + b →
  ∃ h' img,
    center_crop env this crop_width crop_height h = (h', inr img)
    ∧ holds_pixels h' img crop_width crop_height (channels o)
        (λ x y j, byte_at d (width o) (height o) (channels o)
                    (x + a) (y + b) j).
Proof.
  intros Hrn Hcanvas Himg Harr Hd Hc Hw Hh Hlen Hcw Hch Ha Hb Ha0 Hb0 Hab.
  set (c := channels o) in *. set (w := width o) in *.
  set (h0 := height o) in *.
  assert (Hn : 0 ≤ crop_width * crop_height * c)
    by (apply Z.mul_nonneg_nonneg; nia).
  destruct (scatter_loop c (crop_width * crop_height * c)
              (crop_width * crop_height * c)
              (center_crop_body d c w crop_width
                 (inject_Z (w - crop_width) / 2)
                 (inject_Z (h0 - crop_height) / 2))
              (λ k, k * c)
              (λ k j, ToUint8Clamp
                        (ToNumber
                           (ta_get d
                              (((k / crop_width + b) * w
                                + (Z.rem k crop_width + a)) * c + j))))
              Hc)
    as (nd & Hloop & Hlen' & Hin & _).
  { intros k arr Hk.
    by apply center_crop_body_block; [apply half_of_even .. | |]. }
  { intros k k' Hk _. left. nia. }
  eexists _, _. split.
  - unfold center_crop.
    rewrite (bind_run _ _ _ _ _ (get_image_run _ _ _ Himg)).
    fold w h0 c.
    replace ((w =? crop_width) && (h0 =? crop_height)) with false
      by (symmetry; rewrite andb_false_iff, !Z.eqb_neq; lia).
    rewrite Hrn, Hcanvas.
    rewrite (bind_run _ _ _ _ _ (get_array_run _ _ _ Harr)).
    apply (fresh_image_run h (crop_width * crop_height * c)); [done |].
    by rewrite len_replicate.
  - eexists _, nd. split; [apply lookup_snoc_new |].
    split; [apply lookup_snoc_new |]. simpl.
    split_and!; try done.
    { unfold len. rewrite Hlen'. lia. }
    intros x y j Hx Hy Hj.
    destruct (flat_index_div_mod crop_width x y ltac:(lia)) as [Hdiv Hmod].
    assert (y * crop_width + x + 1 ≤ crop_width * crop_height) by nia.
    rewrite (Hin (y * crop_width + x) j); [| nia | nia | done | nia].
    rewrite Z.rem_mod_nonneg, Hdiv, Hmod by nia.
    rewrite clamp_byte by done. unfold byte_at.
    replace ((0 <=? x + a) && (x + a <? w) && (0 <=? y + b) && (y + b <? h0))
      with true; [done |].
    symmetry. rewrite !andb_true_iff, !Z.leb_le, !Z.ltb_lt. lia.
Qed.

End Fallback.

(** * What the channel conversions compute *)

(** [grayscale] of a valid buffer with 3 or 4 channels: the first
    [width * height] bytes of the new [data] are the lumas of the pixels,
    computed from R, G and B alone. *)
Theorem grayscale_luma_of_every_pixel h this o d :
  images h !! this = Some o →
  arrays h !! data o = Some d →
  channels o = 3 ∨ channels o = 4 →
  0 < width o → 0 < height o →
  len d = width o * height o * channels o →
  ∃ h' o' d',
    grayscale this h = (h', inr this)
    ∧ images h' !! this = Some o' ∧ arrays h' !! data o' = Some d'
    ∧ width o' = width o ∧ height o' = height o ∧ channels o' = 1
    ∧ ∀ p, 0 ≤ p < width o * height o →
        ta_get d' p
        = Some (ToUint8Clamp
                  (luma (ta_get d (p * channels o))
                     (ta_get d (p * channels o + 1))
                     (ta_get d (p * channels o + 2)))).
Proof.
  intros Himg Harr Hc Hw Hh Hlen.
  destruct (grayscale_run h this o d) as (nd & Hrun & Hlen' & Hnd);
    [done | done | done | lia |].
  eexists _, _, nd. split; [exact Hrun |].
  split; [by apply converted_image |].
  split; [apply converted_array |]. simpl. split_and!; try done.
  intros p Hp. rewrite Hnd by nia.
  rewrite bool_decide_true; [done |]. rewrite Hlen. nia.
Qed.

(** [rgb] of a valid buffer with 1 or 4 channels: a valid 3-channel
    buffer of the same size; a gray byte is replicated, an alpha byte is
    dropped. *)
Theorem rgb_of_valid_buffer h this o d :
  images h !! this = Some o →
  arrays h !! data o = Some d →
  bytes d →
  channels o = 1 ∨ channels o = 4 →
  0 < width o → 0 < height o →
  len d = width o * height o * channels o →
  ∃ h',
    rgb this h = (h', inr this)
    ∧ holds_pixels h' this (width o) (height o) 3
        (λ x y j, byte_at d (width o) (height o) (channels o) x y
                    (if channels o =? 1 then 0 else j)).
Proof.
  intros Himg Harr Hd Hc Hw Hh Hlen.
  destruct (rgb_run h this o d) as (nd & Hrun & Hlen' & Hnd);
    [done | done | done | lia |].
  eexists. split; [exact Hrun |].
  eexists _, nd. split; [by apply converted_image |].
  split; [apply converted_array |]. simpl. split_and!; try done.
  { unfold len. rewrite Hlen'. lia. }
  intros x y j Hx Hy Hj.
  assert (y * width o + x + 1 ≤ width o * height o) by nia.
  destruct (flat_index_div_mod 3 j (y * width o + x) ltac:(lia))
    as [Hdiv Hmod].
  rewrite Hnd, Hdiv, Hmod by nia.
  rewrite bool_decide_true by (rewrite Hlen; destruct Hc as [-> | ->]; nia).
  rewrite clamp_byte by done. unfold byte_at.
  replace ((0 <=? x) && (x <? width o) && (0 <=? y) && (y <? height o))
    with true; [done |].
  symmetry. rewrite !andb_true_iff, !Z.leb_le, !Z.ltb_lt. lia.
Qed.

(** [rgba] of a valid buffer with 1 or 3 channels: a valid 4-channel
    buffer of the same size; a gray byte is replicated, and alpha is
    255. *)
Theorem rgba_of_valid_buffer h this o d :
  images h !! this = Some o →
  arrays h !! data o = Some d →
  bytes d →
  channels o = 1 ∨ channels o = 3 →
  0 < width o → 0 < height o →
  len d = width o * height o * channels o →
  ∃ h',
    rgba this h = (h', inr this)
    ∧ holds_pixels h' this (width o) (height o) 4
        (λ x y j, if j =? 3 then 255
                  else byte_at d (width o) (height o) (channels o) x y
                         (if channels o =? 1 then 0 else j)).
Proof.
  intros Himg Harr Hd Hc Hw Hh Hlen.
  destruct (rgba_run h this o d) as (nd & Hrun & Hlen' & Hnd);
    [done | done | done | lia |].
  eexists. split; [exact Hrun |].
  eexists _, nd. split; [by apply converted_image |].
  split; [apply converted_array |]. simpl. split_and!; try done.
  { unfold len. rewrite Hlen'. lia. }
  intros x y j Hx Hy Hj.
  assert (y * width o + x + 1 ≤ width o * height o) by nia.
  destruct (flat_index_div_mod 4 j (y * width o + x) ltac:(lia))
    as [Hdiv Hmod].
  rewrite Hnd, Hdiv, Hmod by nia.
  rewrite bool_decide_true by (rewrite Hlen; destruct Hc as [-> | ->]; nia).
  destruct (j =? 3); [done |].
  rewrite clamp_byte by done. unfold byte_at.
  replace ((0 <=? x) && (x <? width o) && (0 <=? y) && (y <? height o))
    with true; [done |].
  symmetry. rewrite !andb_true_iff, !Z.leb_le, !Z.ltb_lt. lia.
Qed.

Lemma convert_sets_channels h this n h1 r :
  convert this n h = (h1, inr r) →
  r = this ∧ ∃ o1, images h1 !! this = Some o1 ∧ channels o1 = n.
Proof.
  unfold convert, grayscale, rgb, rgba. run_cases.
  all: repeat match goal with
              | H : (_ =? _) = _ |- _ =>
                  first [apply Z.eqb_eq in H | apply Z.eqb_neq in H]
              end.
  all: split; [done |].
  all: try (exfalso; lia).
  all: eexists; split;
    [ first [ eassumption
            | apply list_lookup_insert_eq; eapply lookup_lt_Some;
              eassumption ]
    | simpl; lia ].
Qed.

(** [convert(n)] twice in a row is [convert(n)] once: the second call
    finds the channel count it asks for and changes nothing. *)
Theorem convert_twice_is_convert_once h this n h1 r :
  convert this n h = (h1, inr r) → convert r n h1 = (h1, inr r).
Proof.
  intros (-> & o1 & Himg & <-)%convert_sets_channels.
  by apply convert_noop.
Qed.

Section Backends.

Context (env : Env) `{CanvasAPI} `{SharpAPI} `{MathsAPI}.

(** [center_crop] to the size the image has returns the instance itself
    and changes nothing, on every backend. *)
Theorem center_crop_same_size_is_identity h this o :
  images h !! this = Some o →
  center_crop env this (width o) (height o) h = (h, inr this).
Proof.
  intros Himg. unfold center_crop.
  rewrite (bind_run _ _ _ _ _ (get_image_run _ _ _ Himg)).
  by rewrite !Z.eqb_refl.
Qed.

(** Without a canvas, [resize] returns a new instance with the asked
    width and height and the channel count of the original; its [data]
    has [width * height * channels] bytes when [transpose_data] keeps
    the length of its input and [interpolate_data] returns
    [channels * out_height * out_width] values. *)
Theorem resize_fallback_size h this o d width' height' resample :
  IS_REACT_NATIVE env = true →
  createCanvasFunction_defined env && useGCanvas env = false →
  images h !! this = Some o →
  arrays h !! data o = Some d →
  0 < channels o → 0 < width' → 0 < height' →
  (∀ a dims axes, len (transpose_data a dims axes).1 = len a) →
  (∀ a c hh w hh' w', 0 < c → 0 < hh' → 0 < w' →
     len (interpolate_data a (c, hh, w) (hh', w')) = c * hh' * w') →
  ∃ h' img o' d',
    resize env this width' height' resample h = (h', inr img)
    ∧ images h' !! img = Some o' ∧ arrays h' !! data o' = Some d'
    ∧ width o' = width' ∧ height o' = height'
    ∧ channels o' = channels o
    ∧ len d' = width' * height' * channels o.
Proof.
  intros Hrn Hcanvas Himg Harr Hc Hw' Hh' Htranspose Hinterpolate.
  unfold resize. rewrite Hrn, Hcanvas.
  rewrite (bind_run _ _ _ _ _ (get_image_run _ _ _ Himg)).
  rewrite (bind_run _ _ _ _ _ (get_array_run _ _ _ Harr)).
  unfold alloc_array, new_RawImage, alloc_image, bind at 1 2. simpl.
  erewrite _update_run by (simpl; apply lookup_snoc_new).
  eexists _, _, _, _. split; [done |]. simpl.
  split; [rewrite insert_snoc_new; apply lookup_snoc_new |].
  split; [apply lookup_snoc_new |]. simpl. split_and!; try done.
  rewrite Htranspose, Hinterpolate by done. lia.
Qed.

End Backends.

(** * The theorems on concrete images *)

Lemma bytes_decide d :
  forallb (λ v, (0 <=? v) && (v <=? 255)) d = true → bytes d.
Proof.
  intros Hd. apply Forall_forall. intros v Hv%list_elem_of_In.
  rewrite forallb_forall in Hd. apply Hd in Hv. lia.
Qed.

Lemma grayscale_luma_of_every_pixel_witness :
  ∃ h' o' d',
    grayscale 0%nat rgb_2x2 = (h', inr 0%nat)
    ∧ images h' !! 0%nat = Some o' ∧ arrays h' !! data o' = Some d'
    ∧ width o' = 2 ∧ height o' = 2 ∧ channels o' = 1
    ∧ ∀ p, 0 ≤ p < 2 * 2 →
        ta_get d' p
        = Some (ToUint8Clamp
                  (luma
                     (ta_get [255; 0; 0; 0; 255; 0; 0; 0; 255; 255; 255; 255]
                        (p * 3))
                     (ta_get [255; 0; 0; 0; 255; 0; 0; 0; 255; 255; 255; 255]
                        (p * 3 + 1))
                     (ta_get [255; 0; 0; 0; 255; 0; 0; 0; 255; 255; 255; 255]
                        (p * 3 + 2)))).
Proof.
  apply (grayscale_luma_of_every_pixel rgb_2x2 0%nat (mkRawImage 0 2 2 3)
           [255; 0; 0; 0; 255; 0; 0; 0; 255; 255; 255; 255]);
    first [reflexivity | simpl; lia | by left].
Defined.

Lemma rgb_of_valid_buffer_witness :
  ∃ h',
    rgb 0%nat rgba_1x1 = (h', inr 0%nat)
    ∧ holds_pixels h' 0%nat 1 1 3
        (λ x y j, byte_at [1; 2; 3; 4] 1 1 4 x y (if 4 =? 1 then 0 else j)).
Proof.
  apply (rgb_of_valid_buffer rgba_1x1 0%nat (mkRawImage 0 1 1 4)
           [1; 2; 3; 4]);
    first [reflexivity | simpl; lia | by right
          | by apply bytes_decide].
Defined.

Lemma rgba_of_valid_buffer_witness :
  ∃ h',
    rgba 0%nat gray_2x2 = (h', inr 0%nat)
    ∧ holds_pixels h' 0%nat 2 2 4
        (λ x y j, if j =? 3 then 255
                  else byte_at [5; 6; 7; 8] 2 2 1 x y
                         (if 1 =? 1 then 0 else j)).
Proof.
  apply (rgba_of_valid_buffer gray_2x2 0%nat (mkRawImage 0 2 2 1)
           [5; 6; 7; 8]);
    first [reflexivity | simpl; lia | by left | by apply bytes_decide].
Defined.

Lemma convert_twice_is_convert_once_witness :
  convert 0%nat 3 (mkHeap [[5; 6; 7; 8]; [5; 5; 5; 6; 6; 6; 7; 7; 7; 8; 8; 8]]
                     [mkRawImage 1 2 2 3] [])
  = (mkHeap [[5; 6; 7; 8]; [5; 5; 5; 6; 6; 6; 7; 7; 7; 8; 8; 8]]
       [mkRawImage 1 2 2 3] [], inr 0%nat).
Proof.
  apply (convert_twice_is_convert_once gray_2x2 0%nat 3). reflexivity.
Defined.

Lemma pad_fallback_keeps_pixels_in_place_witness :
  ∃ h' img,
    pad react_native_fallback 0%nat 1 0 0 0 gray_1x1 = (h', inr img)
    ∧ holds_pixels h' img 2 1 1 (byte_at [7] 1 1 1).
Proof.
  apply (pad_fallback_keeps_pixels_in_place react_native_fallback gray_1x1
           0%nat (mkRawImage 0 1 1 1) [7] 1 0 0 0);
    first [reflexivity | simpl; lia | by apply bytes_decide].
Defined.

(** The scenario of the specification: a 4 by 4 RGBA image, all zero,
    padded by 1 on every side without a canvas is a 6 by 6 image, all
    zero. *)
Theorem pad_fallback_zero_rgba `{CanvasAPI} `{SharpAPI} `{MathsAPI} :
  pad react_native_fallback 0%nat 1 1 1 1 zero_rgba_4x4
  = (mkHeap [replicate 64 0; replicate 144 0]
       [mkRawImage 0 4 4 4; mkRawImage 1 6 6 4] [],
     inr 1%nat).
Proof. vm_compute. reflexivity. Qed.

Lemma center_crop_fallback_even_difference_witness :
  ∃ h' img,
    center_crop react_native_fallback 0%nat 4 4 gray_10x10 = (h', inr img)
    ∧ holds_pixels h' img 4 4 1
        (λ x y j, byte_at (seqZ 0 100) 10 10 1 (x + 3) (y + 3) j).
Proof.
  apply (center_crop_fallback_even_difference react_native_fallback
           gray_10x10 0%nat (mkRawImage 0 10 10 1) (seqZ 0 100) 4 4 3 3);
    first [reflexivity | simpl; lia | by apply bytes_decide].
Defined.

(** The scenario of the specification: without a canvas, [center_crop]
    of a 10 by 10 image to 4 by 4 leaves the rows and columns 3 to 6. *)
Theorem center_crop_fallback_10_to_4 `{CanvasAPI} `{SharpAPI} `{MathsAPI} :
  center_crop react_native_fallback 0%nat 4 4 gray_10x10
  = (mkHeap
       [seqZ 0 100;
        [33; 34; 35; 36; 43; 44; 45; 46; 53; 54; 55; 56; 63; 64; 65; 66]]
       [mkRawImage 0 10 10 1; mkRawImage 1 4 4 1] [],
     inr 1%nat).
Proof. vm_compute. reflexivity. Qed.

Lemma center_crop_same_size_is_identity_witness :
  center_crop browser 0%nat 2 2 gray_2x2 = (gray_2x2, inr 0%nat).
Proof.
  apply (center_crop_same_size_is_identity browser gray_2x2 0%nat
           (mkRawImage 0 2 2 1)).
  reflexivity.
Defined.

Lemma reference_transpose_length a dims axes :
  len (transpose_data a dims axes).1 = len a.
Proof. simpl. unfold len. rewrite length_fmap, length_seqZ. lia. Qed.

Lemma reference_interpolate_length a c hh w hh' w' :
  0 < c → 0 < hh' → 0 < w' →
  len (interpolate_data a (c, hh, w) (hh', w')) = c * hh' * w'.
Proof.
  intros. simpl. unfold len. rewrite length_fmap, length_seqZ. nia.
Qed.

Lemma resize_fallback_size_witness :
  ∃ h' img o' d',
    resize react_native_fallback 0%nat 3 3 None gray_2x2 = (h', inr img)
    ∧ images h' !! img = Some o' ∧ arrays h' !! data o' = Some d'
    ∧ width o' = 3 ∧ height o' = 3 ∧ channels o' = 1
    ∧ len d' = 3 * 3 * 1.
Proof.
  apply (resize_fallback_size react_native_fallback gray_2x2 0%nat
           (mkRawImage 0 2 2 1) [5; 6; 7; 8] 3 3 None);
    first [ reflexivity | simpl; lia | apply reference_transpose_length
          | apply reference_interpolate_length ].
Defined.

(** * The fallback [center_crop] for any size *)

(** Half of an integer is integral exactly when the integer is even. *)
Lemma Q_integral_half q n :
  (q == inject_Z n / 2)%Q →
  Q_integral q = if Z.even n then Some (n / 2) else None.
Proof.
  destruct q as [a b]. unfold Qeq, Q_integral. simpl.
  rewrite !Z.mul_1_r. intros Heq.
  destruct (Z.even n) eqn:Hn.
  - apply Z.even_spec in Hn as [m ->].
    assert (a = m * Z.pos b) by lia. subst a.
    rewrite Z.mod_mul, Z.div_mul by lia.
    by rewrite (Z.mul_comm 2), Z.div_mul by lia.
  - destruct (Z.eqb_spec (a mod Z.pos b) 0) as [Hmod | Hmod]; [| done].
    apply Z.mod_divide in Hmod as [t ->]; [| lia].
    assert (n = 2 * t) by nia. subst n.
    rewrite Z.even_mul in Hn. done.
Qed.

(** One iteration of the loop of the fallback [center_crop] for sizes of
    any parity: the source index is the destination index moved by half
    of [shift2], and is no index when [shift2] is odd. *)
Lemma center_crop_body_shift d c w cw dw dh k arr :
  0 < c → 0 < cw → 0 ≤ k →
  let shift2 := (dh * w + dw) * c in
  let crop :=
    center_crop_body d c w cw (inject_Z dw / 2) (inject_Z dh / 2) (k * c)
      arr in
  length crop = length arr
  ∧ ∀ q, ta_get crop q
         = if bool_decide (k * c ≤ q < k * c + c ∧ 0 ≤ q < len arr)
           then Some (if Z.even shift2
                      then ToUint8Clamp
                             (ToNumber
                                (ta_get d
                                   ((k / cw * w + k mod cw) * c
                                    + (q - k * c) + shift2 / 2)))
                      else 0)
           else ta_get arr q.
Proof.
  intros Hc Hcw Hk shift2 crop. unfold crop, center_crop_body.
  rewrite Z.div_mul, Z.rem_mod_nonneg by lia.
  set (x := k mod cw). set (y := k / cw).
  pose proof (for_j_block c (k * c)
    (λ j, ToNumber
            (ta_get_Q d
               (((inject_Z y + inject_Z dh / 2) * inject_Z w
                 + (inject_Z x + inject_Z dw / 2))
                * inject_Z c + inject_Z j)%Q))
    arr) as [Hlen Hget].
  split; [exact Hlen |]. intros q. rewrite Hget.
  case_bool_decide; [| done]. f_equal.
  unfold ta_get_Q.
  rewrite (Q_integral_half _
             (2 * ((y * w + x) * c + (q - k * c)) + shift2)).
  - rewrite Z.even_add, Z.even_mul. simpl.
    destruct (Z.even shift2) eqn:Heven; simpl; [| done].
    do 3 f_equal. apply Z.even_spec in Heven as [m Hm]. rewrite Hm.
    rewrite <- Z.mul_add_distr_l, !(Z.mul_comm 2), !Z.div_mul by lia. lia.
  - unfold shift2.
    repeat (rewrite inject_Z_plus || rewrite inject_Z_mult). simpl. field.
Qed.

Section FallbackCrop.

Context (env : Env) `{CanvasAPI} `{SharpAPI} `{MathsAPI}.

(** Without a canvas, [center_crop] to a different size, larger or
    smaller, of any parity, returns a new buffer of the asked size whose
    bytes are those of [center_crop_source]: the source is read at a
    flat index, with no check of the row or of the column, and a read
    that is out of range or between two bytes gives 0. *)
Theorem center_crop_fallback_flat_shift h this o d crop_width crop_height :
  IS_REACT_NATIVE env = true →
  createCanvasFunction_defined env && useGCanvas env = false →
  images h !! this = Some o →
  arrays h !! data o = Some d →
  0 < channels o → 0 < crop_width → 0 < crop_height →
  width o ≠ crop_width ∨ height o ≠ crop_height →
  ∃ h' img,
    center_crop env this crop_width crop_height h = (h', inr img)
    ∧ holds_pixels h' img crop_width crop_height (channels o)
        (center_crop_source d (width o) (height o) (channels o) crop_width
           crop_height).
Proof.
  intros Hrn Hcanvas Himg Harr Hc Hcw Hch Hsize.
  set (c := channels o) in *. set (w := width o) in *.
  set (h0 := height o) in *.
  assert (Hn : 0 ≤ crop_width * crop_height * c)
    by (apply Z.mul_nonneg_nonneg; nia).
  destruct (scatter_loop c (crop_width * crop_height * c)
              (crop_width * crop_height * c)
              (center_crop_body d c w crop_width
                 (inject_Z (w - crop_width) / 2)
                 (inject_Z (h0 - crop_height) / 2))
              (λ k, k * c)
              (λ k j, if Z.even (((h0 - crop_height) * w + (w - crop_width))
                                 * c)
                      then ToUint8Clamp
                             (ToNumber
                                (ta_get d
                                   ((k / crop_width * w + k mod crop_width)
                                    * c + j
                                    + ((h0 - crop_height) * w
                                       + (w - crop_width)) * c / 2)))
                      else 0)
              Hc)
    as (nd & Hloop & Hlen' & Hin & _).
  { intros k arr Hk.
    by apply (center_crop_body_shift d c w crop_width (w - crop_width)
                (h0 - crop_height) k arr). }
  { intros k k' Hk _. left. nia. }
  eexists _, _. split.
  - unfold center_crop.
    rewrite (bind_run _ _ _ _ _ (get_image_run _ _ _ Himg)).
    fold w h0 c.
    replace ((w =? crop_width) && (h0 =? crop_height)) with false
      by (symmetry; rewrite andb_false_iff, !Z.eqb_neq; lia).
    rewrite Hrn, Hcanvas.
    rewrite (bind_run _ _ _ _ _ (get_array_run _ _ _ Harr)).
    apply (fresh_image_run h (crop_width * crop_height * c)); [done |].
    by rewrite len_replicate.
  - eexists _, nd. split; [apply lookup_snoc_new |].
    split; [apply lookup_snoc_new |]. simpl.
    split_and!; try done.
    { unfold len. rewrite Hlen'. lia. }
    intros x y j Hx Hy Hj.
    destruct (flat_index_div_mod crop_width x y ltac:(lia)) as [Hdiv Hmod].
    assert (y * crop_width + x + 1 ≤ crop_width * crop_height) by nia.
    rewrite (Hin (y * crop_width + x) j); [| nia | nia | done | nia].
    by rewrite Hdiv, Hmod.
Qed.

End FallbackCrop.

(** * When [convert] succeeds *)

Lemma ToUint8Clamp_idempotent v :
  ToUint8Clamp (Int (ToUint8Clamp v)) = ToUint8Clamp v.
Proof. destruct v as [| [] | z]; simpl; lia. Qed.

Lemma conversion_succeeds h this o d n :
  images h !! this = Some o →
  arrays h !! data o = Some d →
  0 ≤ width o * height o →
  channels o = 1 ∨ channels o = 3 ∨ channels o = 4 →
  n = 1 ∨ n = 3 ∨ n = 4 →
  ∃ h', convert this n h = (h', inr this).
Proof.
  intros Himg Harr Hn Hc Hn'.
  destruct (Z.eq_dec (channels o) n) as [<- | Hne];
    [eexists; by apply convert_noop |].
  destruct Hn' as [-> | [-> | ->]].
  - destruct (grayscale_run h this o d) as (nd & Hrun & _);
      [done | done | lia | done |].
    eexists. by apply (convert_1_run _ _ o _ this).
  - destruct (rgb_run h this o d) as (nd & Hrun & _);
      [done | done | lia | done |].
    eexists. by apply (convert_3_run _ _ o _ this).
  - destruct (rgba_run h this o d) as (nd & Hrun & _);
      [done | done | lia | done |].
    eexists. by apply (convert_4_run _ _ o _ this).
Qed.

(** [convert(n)] returns exactly when [n] is the channel count of the
    instance or both counts are among 1, 3 and 4; then the instance has
    [n] channels.  In every other case it throws the unsupported-channel
    error, which reports the count of the instance, not [n], and no
    instance and no array that existed is changed. *)
Theorem convert_succeeds_iff_supported h this o d n :
  images h !! this = Some o →
  arrays h !! data o = Some d →
  0 ≤ width o * height o →
  let supported k := k = 1 ∨ k = 3 ∨ k = 4 in
  (n = channels o ∨ (supported n ∧ supported (channels o)) →
   ∃ h' o', convert this n h = (h', inr this)
            ∧ images h' !! this = Some o' ∧ channels o' = n)
  ∧ (¬ (n = channels o ∨ (supported n ∧ supported (channels o))) →
     fails_unsupported (convert this n) h (channels o)).
Proof.
  intros Himg Harr Hn supported. split.
  - intros Hok.
    assert (∃ h', convert this n h = (h', inr this)) as [h' Hrun].
    { destruct Hok as [-> | [Hn' Hc]];
        [eexists; by apply convert_noop |].
      by apply (conversion_succeeds h this o d). }
    destruct (convert_sets_channels _ _ _ _ _ Hrun) as (_ & o' & Ho' & Hc').
    by exists h', o'.
  - intros Hbad. unfold supported in Hbad.
    destruct (Z.eq_dec (channels o) 1); [| destruct (Z.eq_dec (channels o) 3);
      [| destruct (Z.eq_dec (channels o) 4)]].
    4: { apply convert_unsupported; [done .. | lia]. }
    all: unfold fails_unsupported, convert;
      rewrite (bind_run _ _ _ _ _ (get_image_run _ _ _ Himg));
      destruct (Z.eqb_spec (channels o) n); [lia |];
      destruct (Z.eqb_spec n 1); [lia |];
      destruct (Z.eqb_spec n 3); [lia |];
      destruct (Z.eqb_spec n 4); [lia |];
      exists h; by erewrite bind_throw.
Qed.

(** * Grayscale and back to RGB *)

(** [convert(1)] then [convert(3)] on a valid buffer with 3 or 4
    channels: a valid RGB buffer of the same size in which R, G and B of
    every pixel are the luma of the original pixel.  The
    [2 * width * height] bytes [grayscale] leaves unused are gone. *)
Theorem gray_then_rgb_is_luma h this o d :
  images h !! this = Some o →
  arrays h !! data o = Some d →
  channels o = 3 ∨ channels o = 4 →
  0 < width o → 0 < height o →
  len d = width o * height o * channels o →
  ∃ h',
    (let* img := convert this 1 in convert img 3) h = (h', inr this)
    ∧ holds_pixels h' this (width o) (height o) 3
        (λ x y _,
           let p := (y * width o + x) * channels o in
           ToUint8Clamp
             (luma (ta_get d p) (ta_get d (p + 1)) (ta_get d (p + 2)))).
Proof.
  intros Himg Harr Hc Hw Hh Hlen.
  destruct (grayscale_run h this o d) as (gray & Hrun1 & Hlen1 & Hgray);
    [done | done | done | lia |].
  set (o1 := mkRawImage (length (arrays h)) (width o) (height o) 1).
  assert (Himg1 : images (converted h this o gray 1) !! this = Some o1)
    by (by apply converted_image).
  destruct (rgb_run (converted h this o gray 1) this o1 gray)
    as (nd & Hrun2 & Hlen2 & Hnd);
    [done | apply converted_array | by left | simpl; lia |].
  eexists. split.
  { rewrite (bind_run _ _ _ _ _ (convert_1_run _ _ o _ this Himg
                                   ltac:(lia) Hrun1)).
    apply (convert_3_run _ _ o1 _ this); [done | done | exact Hrun2]. }
  eexists _, nd. split; [by apply converted_image |].
  split; [apply converted_array |]. simpl in *. split_and!; try done.
  { unfold len. rewrite Hlen2. lia. }
  intros x y j Hx Hy Hj.
  assert (y * width o + x + 1 ≤ width o * height o) by nia.
  destruct (flat_index_div_mod 3 j (y * width o + x) ltac:(lia))
    as [Hdiv Hmod].
  rewrite Hnd, Hdiv by nia. simpl. rewrite Z.mul_1_r, Z.add_0_r.
  rewrite bool_decide_true by (unfold len; rewrite Hlen1; nia).
  rewrite Hgray by nia.
  rewrite bool_decide_true by (rewrite Hlen; nia).
  unfold ToNumber. by rewrite ToUint8Clamp_idempotent.
Qed.

(** * The canvas branches *)

Lemma byte_at_inside d w hh c x y j v :
  0 ≤ x < w → 0 ≤ y < hh →
  ta_get d ((y * w + x) * c + j) = Some v → byte_at d w hh c x y j = v.
Proof.
  intros Hx Hy Hv. unfold byte_at. rewrite Hv.
  replace ((0 <=? x) && (x <? w) && (0 <=? y) && (y <? hh)) with true;
    [done |].
  symmetry. rewrite !andb_true_iff, !Z.leb_le, !Z.ltb_lt. lia.
Qed.

Lemma ta_get_inside d i : 0 ≤ i < len d → ∃ v, ta_get d i = Some v.
Proof.
  intros Hi. unfold ta_get, len in *. destruct (Z.ltb_spec i 0); [lia |].
  apply lookup_lt_is_Some. lia.
Qed.

Section Canvas.

Context (env : Env) `{CanvasAPI} `{SharpAPI} `{MathsAPI}.

(** [clone().rgba()] of a valid buffer: a new instance on a new array
    that holds the pixels as RGBA; nothing that existed changes. *)
Lemma clone_rgba_pixels h this o d :
  images h !! this = Some o →
  arrays h !! data o = Some d →
  bytes d →
  channels o = 1 ∨ channels o = 3 ∨ channels o = 4 →
  0 < width o → 0 < height o →
  len d = width o * height o * channels o →
  ∃ h1 cl a dc,
    (let* cloned := clone this in rgba cloned) h = (h1, inr cl)
    ∧ images h1 !! cl = Some (mkRawImage a (width o) (height o) 4)
    ∧ arrays h1 !! a = Some dc ∧ arrays h !! a = None
    ∧ heap_le h h1
    ∧ array_pixels dc (width o) (height o) 4
        (rgba_byte d (width o) (height o) (channels o)).
Proof.
  intros Himg Harr Hd Hc Hw Hh Hlen.
  destruct ((let* cloned := clone this in rgba cloned) h)
    as [h1 r] eqn:Hrun.
  pose proof (clone_rgba_frame _ _ _ _ Hrun) as Hle.
  rewrite (bind_run _ _ _ _ _ (clone_run _ _ _ _ Himg Harr)) in Hrun.
  set (oc := mkRawImage (length (arrays h)) (width o) (height o)
               (channels o)) in *.
  set (h' := mkHeap (arrays h ++ [d]) (images h ++ [oc]) (console h)) in *.
  assert (Himg' : images h' !! length (images h) = Some oc)
    by apply lookup_snoc_new.
  assert (Harr' : arrays h' !! data oc = Some d) by apply lookup_snoc_new.
  destruct (Z.eq_dec (channels o) 4) as [H4 | H4].
  - rewrite (rgba_noop _ _ _ Himg' H4) in Hrun. injection Hrun as <- <-.
    exists h', (length (images h)), (length (arrays h)), d.
    split; [done |]. split; [rewrite Himg'; unfold oc; by rewrite H4 |].
    split; [done |]. split; [by apply lookup_ge_None |].
    split; [done |]. split; [lia |].
    intros x y j Hx Hy Hj. unfold rgba_byte. rewrite H4. simpl.
    assert (y * width o + x + 1 ≤ width o * height o) by nia.
    destruct (ta_get_inside d ((y * width o + x) * 4 + j)) as [v Hv];
      [lia |].
    by rewrite Hv, (byte_at_inside _ _ _ _ _ _ _ v).
  - destruct (rgba_run h' (length (images h)) oc d) as (nd & Hrun' & Hlen' & Hnd);
      [done | done | simpl; lia | simpl; lia |].
    rewrite Hrun' in Hrun. injection Hrun as <- <-.
    exists (converted h' (length (images h)) oc nd 4), (length (images h)),
      (length (arrays h')), nd.
    split; [done |].
    split; [exact (converted_image h' _ oc nd 4 Himg') |].
    split; [apply converted_array |].
    split; [apply lookup_ge_None; unfold h'; simpl; rewrite length_app; lia |].
    split; [done |]. simpl in *. split; [unfold len; rewrite Hlen'; lia |].
    intros x y j Hx Hy Hj.
    assert (y * width o + x + 1 ≤ width o * height o) by nia.
    destruct (flat_index_div_mod 4 j (y * width o + x) ltac:(lia))
      as [Hdiv Hmod].
    rewrite Hnd, Hdiv, Hmod by nia.
    rewrite bool_decide_true by (rewrite Hlen; destruct Hc as [-> | [-> | ->]]; nia).
    unfold rgba_byte. destruct (Z.eqb_spec (channels o) 4); [done |].
    destruct (j =? 3); [done |].
    rewrite clamp_byte by done. f_equal. symmetry.
    unfold byte_at.
    replace ((0 <=? x) && (x <? width o) && (0 <=? y) && (y <? height o))
      with true; [done |].
    symmetry. rewrite !andb_true_iff, !Z.leb_le, !Z.ltb_lt. lia.
Qed.

(** [toImageData()] of a valid buffer, where [ImageData] exists: an
    [ImageData] of the width and height of the image on an array that
    did not exist before and holds the pixels as RGBA; the instance, its
    bytes and every other object are unchanged. *)
Theorem toImageData_is_rgba_copy h this o d :
  ImageDataClass_defined env = true →
  images h !! this = Some o →
  arrays h !! data o = Some d →
  bytes d →
  channels o = 1 ∨ channels o = 3 ∨ channels o = 4 →
  0 < width o → 0 < height o →
  len d = width o * height o * channels o →
  ∃ h1 a dc,
    toImageData env this h
    = (h1, inr (mkImageData a (width o) (height o)))
    ∧ arrays h !! a = None ∧ arrays h1 !! a = Some dc
    ∧ array_pixels dc (width o) (height o) 4
        (rgba_byte d (width o) (height o) (channels o))
    ∧ heap_le h h1.
Proof.
  intros Hid Himg Harr Hd Hc Hw Hh Hlen.
  destruct (clone_rgba_pixels h this o d)
    as (h1 & cl & a & dc & Hrun & Himg1 & Harr1 & Hfresh & Hle & Hpix);
    [done .. |].
  exists h1, a, dc. split; [| done].
  unfold toImageData, new_ImageDataClass. rewrite Hid, andb_false_r.
  rewrite <- bind_assoc, (bind_run _ _ _ _ _ Hrun).
  by rewrite (bind_run _ _ _ _ _ (get_image_run _ _ _ Himg1)).
Qed.

(** [toCanvas()] of a valid buffer, on a host with a canvas: a new
    canvas of the size of the image with the RGBA pixels of the image
    put at its origin; the instance, its bytes and every other object
    are unchanged. *)
Theorem toCanvas_is_rgba_copy h this o d :
  createCanvasFunction_defined env = true →
  IS_REACT_NATIVE env || OffscreenCanvas_defined env = true →
  ImageDataClass_defined env = true →
  images h !! this = Some o →
  arrays h !! data o = Some d →
  bytes d →
  channels o = 1 ∨ channels o = 3 ∨ channels o = 4 →
  0 < width o → 0 < height o →
  len d = width o * height o * channels o →
  ∃ h1 dc,
    toCanvas env this h
    = (h1, inr (putImageData (createCanvas (width o) (height o)) dc
                  (width o) (height o) 0 0))
    ∧ array_pixels dc (width o) (height o) 4
        (rgba_byte d (width o) (height o) (channels o))
    ∧ heap_le h h1.
Proof.
  intros Hcanvas Hoff Hid Himg Harr Hd Hc Hw Hh Hlen.
  destruct (clone_rgba_pixels h this o d)
    as (h1 & cl & a & dc & Hrun & Himg1 & Harr1 & Hfresh & Hle & Hpix);
    [done .. |].
  exists h1, dc. split; [| done].
  unfold toCanvas, createCanvasFunction, new_ImageDataClass, ctx_putImageData.
  rewrite Hcanvas, Hid, andb_false_r. simpl.
  replace (negb (IS_REACT_NATIVE env) && negb (OffscreenCanvas_defined env))
    with false by (by destruct (IS_REACT_NATIVE env),
                        (OffscreenCanvas_defined env)).
  rewrite <- bind_assoc, (bind_run _ _ _ _ _ Hrun).
  rewrite (bind_run _ _ _ _ _ (get_image_run _ _ _ Himg1)).
  unfold bind at 1 2, ret. simpl.
  by rewrite (bind_run _ _ _ _ _ (get_array_run _ _ _ Harr1)).
Qed.

(** Back from the canvas: the RGBA image read from a canvas, converted
    to 3 or 4 channels, is a valid buffer of the size read. *)
Lemma canvas_to_channels h canvas width' height' c :
  0 < width' → 0 < height' → c = 3 ∨ c = 4 →
  ∃ h' img,
    (let* resized := RawImage_of_canvas canvas width' height' in
     convert resized c) h = (h', inr img)
    ∧ has_shape h' img width' height' c.
Proof.
  intros Hw Hh Hc.
  rewrite (bind_run _ _ _ _ _ (RawImage_of_canvas_run _ _ _ _)).
  set (o := mkRawImage (length (arrays h)) width' height' 4).
  set (h1 := mkHeap _ _ _).
  assert (Himg : images h1 !! length (images h) = Some o)
    by apply lookup_snoc_new.
  assert (Harr : arrays h1 !! data o = Some (getImageData canvas 0 0 width' height'))
    by apply lookup_snoc_new.
  destruct Hc as [-> | ->].
  - destruct (rgb_run h1 (length (images h)) o _ Himg Harr)
      as (nd & Hrun & Hlen & _); [by right | simpl; lia |].
    eexists _, _. split.
    { apply (convert_3_run _ _ o _ (length (images h)) Himg);
        [done | exact Hrun]. }
    eexists _, nd. split; [by apply converted_image |].
    split; [apply converted_array |]. simpl in *.
    split_and!; try done. unfold len. rewrite Hlen. lia.
  - exists h1, (length (images h)). split.
    { by apply (convert_noop h1 _ o). }
    eexists o, _. split; [done |]. split; [done |]. simpl.
    split_and!; try done. by apply getImageData_length.
Qed.

Lemma toImageData_run h this o d :
  ImageDataClass_defined env = true →
  images h !! this = Some o →
  arrays h !! data o = Some d →
  channels o = 1 ∨ channels o = 3 ∨ channels o = 4 →
  0 ≤ width o * height o →
  ∃ h1 a dc,
    toImageData env this h
    = (h1, inr (mkImageData a (width o) (height o)))
    ∧ arrays h1 !! a = Some dc ∧ heap_le h h1.
Proof.
  intros Hid Himg Harr Hc Hn.
  destruct (clone_rgba_run h this o d Himg Harr Hc Hn)
    as (h1 & cl & oc & dc & Hrun & Himg1 & Harr1 & Hw & Hh & _).
  exists h1, (data oc), dc.
  assert (Hto : toImageData env this h
                = (h1, inr (mkImageData (data oc) (width o) (height o)))).
  { unfold toImageData, new_ImageDataClass. rewrite Hid, andb_false_r.
    rewrite <- bind_assoc, (bind_run _ _ _ _ _ Hrun).
    rewrite (bind_run _ _ _ _ _ (get_image_run _ _ _ Himg1)).
    by rewrite Hw, Hh. }
  split; [done |]. split; [done |]. by eapply toImageData_frame.
Qed.

(** The canvas of the instance, on both canvas hosts. *)
Lemma toCanvas_on_canvas_host h this o d :
  canvas_host env →
  images h !! this = Some o →
  arrays h !! data o = Some d →
  channels o = 1 ∨ channels o = 3 ∨ channels o = 4 →
  0 ≤ width o * height o →
  ∃ h1 canvas, toCanvas env this h = (h1, inr canvas) ∧ heap_le h h1.
Proof.
  intros (Hcanvas & Hid & Hhost) Himg Harr Hc Hn.
  destruct (toCanvas_run env h this o d) as (h1 & canvas & Hrun);
    try done.
  { destruct Hhost as [[-> _] | (_ & _ & ->)]; [done | apply orb_true_r]. }
  exists h1, canvas. split; [done |]. by eapply toCanvas_frame.
Qed.

Lemma createCanvasFunction_on_canvas_host width' height' h :
  canvas_host env →
  createCanvasFunction env width' height' h
  = (h, inr (createCanvas width' height')).
Proof.
  intros (Hcanvas & _ & Hhost). unfold createCanvasFunction.
  rewrite Hcanvas. simpl.
  by destruct Hhost as [[-> _] | (_ & _ & ->)]; rewrite ?andb_false_r.
Qed.

Lemma heap_le_trans h1 h2 h3 : heap_le h1 h2 → heap_le h2 h3 → heap_le h1 h3.
Proof. intros [Hi Ha] [Hi' Ha']. split; eauto. Qed.

(** Back from the canvas, any outcome: nothing that existed changes. *)
Lemma canvas_to_channels_frame {A : Type} h canvas width' height'
    (k : loc → M A) h' r :
  (∀ l h1 h2 r', k l h1 = (h2, r') → heap_le_except l h1 h2) →
  (let* resized := RawImage_of_canvas canvas width' height' in k resized) h
  = (h', r) →
  heap_le h h'.
Proof.
  intros Hk. rewrite (bind_run _ _ _ _ _ (RawImage_of_canvas_run _ _ _ _)).
  intros Hrun%Hk.
  eapply (heap_le_fresh_except h _ h' (length (images h)));
    [| | exact Hrun].
  - split; simpl; intros; by apply lookup_snoc_old.
  - by apply lookup_ge_None.
Qed.

(** On a host with a canvas, [resize] of a valid RGB or RGBA buffer to
    [width] by [height], both at least 1, returns, whatever the resample
    option is (names outside the table included: the canvas branches never
    look at it), an instance with that width and height, the channel count
    of the original and [width * height * channels] bytes; the original
    and every other object are unchanged. *)
Theorem resize_canvas_shape h this o d width' height' resample :
  canvas_host env →
  images h !! this = Some o →
  arrays h !! data o = Some d →
  channels o = 3 ∨ channels o = 4 →
  0 < width o → 0 < height o →
  len d = width o * height o * channels o →
  0 < width' → 0 < height' →
  ∃ h' img,
    resize env this width' height' resample h = (h', inr img)
    ∧ has_shape h' img width' height' (channels o)
    ∧ heap_le h h'.
Proof.
  intros Hhost Himg Harr Hc Hw Hh Hlen Hw' Hh'.
  assert (Hc' : channels o = 1 ∨ channels o = 3 ∨ channels o = 4) by tauto.
  assert (Hn : 0 ≤ width o * height o) by lia.
  pose proof Hhost as (Hcanvas & Hid & [[Hrn Hg] | (Hrn & Hbrowser & Hoff)]).
  - destruct (toImageData_run h this o d) as (h1 & a & dc & Hrun & Ha & Hle);
      try done.
    assert (Himg1 : images h1 !! this = Some o) by by apply Hle.
    assert (Hunfold : resize env this width' height' resample h
      = (let* resized :=
           RawImage_of_canvas
             (drawImage9
                (putImageData (createCanvas (width o) (height o)) dc
                   (width o) (height o) 0 0)
                (putImageData (createCanvas (width o) (height o)) dc
                   (width o) (height o) 0 0)
                0 0 (inject_Z (width o)) (inject_Z (height o)) 0 0
                (inject_Z width') (inject_Z height'))
             width' height' in
         convert resized (channels o)) h1).
    { unfold resize. rewrite Hrn, Hcanvas, Hg. simpl.
      rewrite (bind_run _ _ _ _ _ (get_image_run _ _ _ Himg)).
      rewrite (bind_run _ _ _ _ _
                 (createCanvasFunction_on_canvas_host _ _ _ Hhost)).
      rewrite (bind_run _ _ _ _ _ Hrun).
      unfold ctx_putImageData. simpl.
      rewrite bind_assoc.
      rewrite (bind_run _ _ _ _ _ (get_array_run _ _ _ Ha)).
      unfold bind at 1, ret.
      by rewrite (bind_run _ _ _ _ _ (get_image_run _ _ _ Himg1)). }
    rewrite Hunfold.
    destruct (canvas_to_channels h1
                (drawImage9
                   (putImageData (createCanvas (width o) (height o)) dc
                      (width o) (height o) 0 0)
                   (putImageData (createCanvas (width o) (height o)) dc
                      (width o) (height o) 0 0)
                   0 0 (inject_Z (width o)) (inject_Z (height o)) 0 0
                   (inject_Z width') (inject_Z height'))
                width' height' (channels o))
      as (h' & img & Hrun' & Hshape); try done.
    exists h', img. split; [done |]. split; [done |].
    apply (heap_le_trans _ h1); [done |].
    eapply canvas_to_channels_frame; [| exact Hrun'].
    intros l h0 h2 r' Hk. exact (convert_frame _ _ _ _ _ Hk).
  - destruct (toCanvas_on_canvas_host h this o d)
      as (h1 & canvas & Hrun & Hle); try done.
    assert (Hunfold : resize env this width' height' resample h
      = (let* resized :=
           RawImage_of_canvas
             (drawImage5 (createCanvas width' height') canvas 0 0
                (inject_Z width') (inject_Z height'))
             width' height' in
         convert resized (channels o)) h1).
    { unfold resize. rewrite Hrn, Hbrowser.
      rewrite (bind_run _ _ _ _ _ (get_image_run _ _ _ Himg)).
      rewrite (bind_run _ _ _ _ _ Hrun).
      by rewrite (bind_run _ _ _ _ _
                    (createCanvasFunction_on_canvas_host _ _ _ Hhost)). }
    rewrite Hunfold.
    destruct (canvas_to_channels h1
                (drawImage5 (createCanvas width' height') canvas 0 0
                   (inject_Z width') (inject_Z height'))
                width' height' (channels o))
      as (h' & img & Hrun' & Hshape); try done.
    exists h', img. split; [done |]. split; [done |].
    apply (heap_le_trans _ h1); [done |].
    eapply canvas_to_channels_frame; [| exact Hrun'].
    intros l h0 h2 r' Hk. exact (convert_frame _ _ _ _ _ Hk).
Qed.

Lemma convert_from_canvas h h1 canvas width' height' c :
  heap_le h h1 → 0 < width' → 0 < height' → c = 3 ∨ c = 4 →
  ∃ h' img,
    convert (length (images h1)) c
      (RawImage_of_canvas canvas width' height' h1).1
    = (h', inr img)
    ∧ has_shape h' img width' height' c ∧ heap_le h h'.
Proof.
  intros Hle Hw Hh Hc.
  destruct (canvas_to_channels h1 canvas width' height' c)
    as (h' & img & Hrun & Hshape); try done.
  exists h', img. split; [| split; [done |]].
  - by rewrite (bind_run _ _ _ _ _ (RawImage_of_canvas_run _ _ _ _)) in Hrun;
      rewrite RawImage_of_canvas_run.
  - apply (heap_le_trans _ h1); [done |].
    eapply canvas_to_channels_frame; [| exact Hrun].
    intros l h0 h2 r' Hk. exact (convert_frame _ _ _ _ _ Hk).
Qed.

(** On a host with a canvas, [pad] of a valid RGB or RGBA buffer returns
    an instance grown by the paddings, each clamped at 0, with the channel
    count of the original and [width * height * channels] bytes; the
    original and every other object are unchanged. *)
Theorem pad_canvas_shape h this o d left right top bottom :
  canvas_host env →
  images h !! this = Some o →
  arrays h !! data o = Some d →
  channels o = 3 ∨ channels o = 4 →
  0 < width o → 0 < height o →
  len d = width o * height o * channels o →
  ∃ h' img,
    pad env this left right top bottom h = (h', inr img)
    ∧ has_shape h' img (width o + Z.max left 0 + Z.max right 0)
        (height o + Z.max top 0 + Z.max bottom 0) (channels o)
    ∧ heap_le h h'.
Proof.
  intros Hhost Himg Harr Hc Hw Hh Hlen.
  assert (Hc' : channels o = 1 ∨ channels o = 3 ∨ channels o = 4) by tauto.
  assert (Hn : 0 ≤ width o * height o) by lia.
  unfold pad.
  destruct ((Z.max left 0 =? 0) && (Z.max right 0 =? 0)
            && (Z.max top 0 =? 0) && (Z.max bottom 0 =? 0)) eqn:Hzero.
  { apply andb_prop in Hzero as [Hzero Hb%Z.eqb_eq].
    apply andb_prop in Hzero as [Hzero Ht%Z.eqb_eq].
    apply andb_prop in Hzero as [Hl%Z.eqb_eq Hr%Z.eqb_eq].
    exists h, this. rewrite Hl, Hr, Ht, Hb, !Z.add_0_r.
    split; [done |]. split; [by exists o, d | done]. }
  set (l := Z.max left 0). set (r := Z.max right 0).
  set (t := Z.max top 0). set (b := Z.max bottom 0).
  assert (0 < width o + l + r ∧ 0 < height o + t + b) as [Hw' Hh']
    by (unfold l, r, t, b; lia).
  pose proof Hhost as (Hcanvas & Hid & [[Hrn Hg] | (Hrn & Hbrowser & Hoff)]).
  - destruct (toImageData_run h this o d) as (h1 & a & dc & Hrun & Ha & Hle);
      try done.
    assert (Himg1 : images h1 !! this = Some o) by by apply Hle.
    rewrite Hrn, Hcanvas, Hg. simpl.
    rewrite (bind_run _ _ _ _ _ (get_image_run _ _ _ Himg)).
    rewrite (bind_run _ _ _ _ _
               (createCanvasFunction_on_canvas_host _ _ _ Hhost)).
    rewrite (bind_run _ _ _ _ _ Hrun).
    unfold ctx_putImageData. simpl.
    rewrite bind_assoc.
    rewrite (bind_run _ _ _ _ _ (get_array_run _ _ _ Ha)).
    unfold bind at 1, ret.
    set (canvas := putImageData _ _ _ _ _ _).
    destruct (convert_from_canvas h h1 canvas (width o + l + r)
                (height o + t + b) (channels o))
      as (h' & img & Hrun' & Hshape & Hle'); try done.
    exists h', img. split; [| done].
    rewrite RawImage_of_canvas_run in Hrun'.
    rewrite (bind_run _ _ _ _ _ (RawImage_of_canvas_run _ _ _ _)).
    erewrite bind_run
      by (apply get_image_run; simpl; by apply lookup_snoc_old).
    exact Hrun'.
  - destruct (toCanvas_on_canvas_host h this o d)
      as (h1 & canvas & Hrun & Hle); try done.
    assert (Himg1 : images h1 !! this = Some o) by by apply Hle.
    rewrite Hrn, Hbrowser.
    rewrite (bind_run _ _ _ _ _ (get_image_run _ _ _ Himg)).
    rewrite (bind_run _ _ _ _ _ Hrun).
    rewrite (bind_run _ _ _ _ _ (get_image_run _ _ _ Himg1)).
    rewrite (bind_run _ _ _ _ _
               (createCanvasFunction_on_canvas_host _ _ _ Hhost)).
    set (ctx := drawImage9 _ _ _ _ _ _ _ _ _ _).
    destruct (convert_from_canvas h h1 ctx (width o + l + r)
                (height o + t + b) (channels o))
      as (h' & img & Hrun' & Hshape & Hle'); try done.
    exists h', img. split; [| done].
    rewrite RawImage_of_canvas_run in Hrun'.
    by rewrite (bind_run _ _ _ _ _ (RawImage_of_canvas_run _ _ _ _)).
Qed.

(** On a host with a canvas, [center_crop] of a valid RGB or RGBA buffer
    to [crop_width] by [crop_height], both at least 1, returns an instance
    with that width and height, the channel count of the original and
    [width * height * channels] bytes; the original and every other object
    are unchanged. *)
Theorem center_crop_canvas_shape h this o d crop_width crop_height :
  canvas_host env →
  images h !! this = Some o →
  arrays h !! data o = Some d →
  channels o = 3 ∨ channels o = 4 →
  0 < width o → 0 < height o →
  len d = width o * height o * channels o →
  0 < crop_width → 0 < crop_height →
  ∃ h' img,
    center_crop env this crop_width crop_height h = (h', inr img)
    ∧ has_shape h' img crop_width crop_height (channels o)
    ∧ heap_le h h'.
Proof.
  intros Hhost Himg Harr Hc Hw Hh Hlen Hw' Hh'.
  assert (Hc' : channels o = 1 ∨ channels o = 3 ∨ channels o = 4) by tauto.
  assert (Hn : 0 ≤ width o * height o) by lia.
  unfold center_crop.
  rewrite (bind_run _ _ _ _ _ (get_image_run _ _ _ Himg)).
  destruct ((width o =? crop_width) && (height o =? crop_height)) eqn:Hsame.
  { apply andb_prop in Hsame as [<-%Z.eqb_eq <-%Z.eqb_eq].
    exists h, this. split; [done |]. split; [by exists o, d | done]. }
  pose proof Hhost as (Hcanvas & Hid & [[Hrn Hg] | (Hrn & Hbrowser & Hoff)]).
  - destruct (toImageData_run h this o d) as (h1 & a & dc & Hrun & Ha & Hle);
      try done.
    assert (Himg1 : images h1 !! this = Some o) by by apply Hle.
    rewrite Hrn, Hcanvas, Hg. simpl.
    rewrite (bind_run _ _ _ _ _
               (createCanvasFunction_on_canvas_host _ _ _ Hhost)).
    rewrite (bind_run _ _ _ _ _ Hrun).
    unfold ctx_putImageData. simpl.
    rewrite bind_assoc.
    rewrite (bind_run _ _ _ _ _ (get_array_run _ _ _ Ha)).
    unfold bind at 1, ret.
    set (canvas := putImageData _ _ _ _ _ _).
    destruct (convert_from_canvas h h1 canvas crop_width crop_height
                (channels o))
      as (h' & img & Hrun' & Hshape & Hle'); try done.
    exists h', img. split; [| done].
    rewrite RawImage_of_canvas_run in Hrun'.
    rewrite (bind_run _ _ _ _ _ (RawImage_of_canvas_run _ _ _ _)).
    erewrite bind_run
      by (apply get_image_run; simpl; by apply lookup_snoc_old).
    exact Hrun'.
  - destruct (toCanvas_on_canvas_host h this o d)
      as (h1 & canvas & Hrun & Hle); try done.
    rewrite Hrn, Hbrowser.
    rewrite (bind_run _ _ _ _ _ Hrun).
    rewrite (bind_run _ _ _ _ _
               (createCanvasFunction_on_canvas_host _ _ _ Hhost)).
    set (ctx := drawImage9 _ _ _ _ _ _ _ _ _ _).
    destruct (convert_from_canvas h h1 ctx crop_width crop_height
                (channels o))
      as (h' & img & Hrun' & Hshape & Hle'); try done.
    exists h', img. split; [| done].
    rewrite RawImage_of_canvas_run in Hrun'.
    by rewrite (bind_run _ _ _ _ _ (RawImage_of_canvas_run _ _ _ _)).
Qed.

End Canvas.

(** ** What [resize], [pad] and [center_crop] leave alone *)

Lemma heap_le_refl h : heap_le h h.
Proof. by split. Qed.

Lemma preserves_ret {A : Type} (x : A) : preserves (ret x).
Proof. intros h h' r [= <- <-]. apply heap_le_refl. Qed.

Lemma preserves_throw {A : Type} e : preserves (@throw A e).
Proof. intros h h' r [= <- <-]. apply heap_le_refl. Qed.

Lemma preserves_bind {A B : Type} (m : M A) (k : A → M B) :
  preserves m → (∀ x, preserves (k x)) → preserves (bind m k).
Proof.
  intros Hm Hk h h' r. unfold bind.
  destruct (m h) as [h1 [e | x]] eqn:Hrun.
  - intros [= <- <-]. by eapply Hm.
  - intros Hrun'. eapply heap_le_trans; [by eapply Hm | by eapply Hk].
Qed.

Lemma preserves_get_image this : preserves (get_image this).
Proof.
  intros h h' r. unfold get_image.
  case_match; intros [= <- <-]; apply heap_le_refl.
Qed.

Lemma preserves_get_array a : preserves (get_array a).
Proof.
  intros h h' r. unfold get_array.
  case_match; intros [= <- <-]; apply heap_le_refl.
Qed.

Lemma preserves_console_warn message : preserves (console_warn message).
Proof. intros h h' r [= <- <-]. by split. Qed.

Lemma preserves_alloc_array d : preserves (alloc_array d).
Proof.
  intros h h' r [= <- <-]. split; simpl; [done |].
  intros. by apply lookup_snoc_old.
Qed.

(** A new instance on an array. *)
Lemma preserves_new_RawImage data' width' height' channels' :
  preserves (new_RawImage data' width' height' channels').
Proof.
  intros h h' r. unfold new_RawImage. run_cases.
  all: split; simpl; intros ? ? Hold; pose proof (lookup_lt_Some _ _ _ Hold);
    rewrite ?list_lookup_insert_ne by lia;
    first [done | by apply lookup_snoc_old].
Qed.

(** A new array, the loop that fills it, and a new instance on it. *)
Lemma preserves_fresh_image n loop width' height' channels' :
  preserves
    (let* a := new_Uint8ClampedArray n in
     let* _ := fill a loop in
     new_RawImage a width' height' channels').
Proof.
  intros h h' r. run_cases.
  all: split; simpl; intros ? ? Hold; pose proof (lookup_lt_Some _ _ _ Hold);
    rewrite ?list_lookup_insert_ne by lia;
    first [done | by apply lookup_snoc_old].
Qed.

Section Frames.

Context (env : Env) `{CanvasAPI} `{SharpAPI} `{MathsAPI}.

Lemma preserves_createCanvasFunction width' height' :
  preserves (createCanvasFunction env width' height').
Proof.
  unfold createCanvasFunction.
  repeat case_match; first [apply preserves_throw | apply preserves_ret].
Qed.

Lemma preserves_toImageData this : preserves (toImageData env this).
Proof. intros h h' r. apply toImageData_frame. Qed.

Lemma preserves_toCanvas this : preserves (toCanvas env this).
Proof. intros h h' r. apply toCanvas_frame. Qed.

Lemma preserves_ctx_putImageData canvas imageData dx dy :
  preserves (ctx_putImageData canvas imageData dx dy).
Proof.
  apply preserves_bind; [apply preserves_get_array |].
  intros. apply preserves_ret.
Qed.

(** The image read back from a canvas and what is done to it in place. *)
Lemma preserves_from_canvas {A : Type} canvas width' height' (k : loc → M A) :
  (∀ l h1 h2 r, k l h1 = (h2, r) → heap_le_except l h1 h2) →
  preserves (let* resized := RawImage_of_canvas canvas width' height' in
             k resized).
Proof. intros Hk h h' r. by apply canvas_to_channels_frame. Qed.

Lemma preserves_sharp this : preserves (sharp this).
Proof.
  apply preserves_bind; [apply preserves_get_image |]. intros o.
  apply preserves_bind; [apply preserves_get_array |]. intros d.
  apply preserves_ret.
Qed.

Lemma preserves_resize_switch img this_width this_height width' height'
    resampleMethod :
  preserves (resize_switch img this_width this_height width' height'
               resampleMethod).
Proof.
  unfold resize_switch.
  repeat case_match;
    first [ apply preserves_throw | apply preserves_ret
          | apply preserves_bind;
            [apply preserves_console_warn | intros; apply preserves_ret] ].
Qed.

Lemma preserves_loadImageFunction img : preserves (loadImageFunction img).
Proof.
  unfold loadImageFunction.
  destruct (toBuffer img) as [[[data' width'] height'] channels'].
  apply preserves_bind; [apply preserves_alloc_array |].
  intros. apply preserves_new_RawImage.
Qed.

Lemma convert_after_get_image this l h1 h2 (r : error + loc) :
  (let* o := get_image this in convert l (channels o)) h1 = (h2, r) →
  heap_le_except l h1 h2.
Proof.
  unfold bind at 1, get_image.
  destruct (images h1 !! this) as [o |];
    [apply convert_frame | intros [= <- <-]; by split].
Qed.

Lemma preserves_resize this width' height' resample :
  preserves (resize env this width' height' resample).
Proof.
  unfold resize.
  repeat case_match.
  - apply preserves_bind; [apply preserves_get_image |]. intros o.
    apply preserves_bind; [apply preserves_createCanvasFunction |].
    intros canvas.
    apply preserves_bind; [apply preserves_toImageData |]. intros imageData.
    apply preserves_bind; [apply preserves_ctx_putImageData |].
    intros canvas'.
    apply preserves_bind; [apply preserves_get_image |]. intros o'.
    apply preserves_from_canvas. intros l h1 h2 r. apply convert_frame.
  - apply preserves_bind; [apply preserves_get_image |]. intros o.
    apply preserves_bind; [apply preserves_get_array |]. intros d.
    apply preserves_bind; [apply preserves_alloc_array |]. intros a.
    apply preserves_new_RawImage.
  - apply preserves_bind; [apply preserves_get_image |]. intros o.
    apply preserves_bind; [apply preserves_toCanvas |]. intros canvas.
    apply preserves_bind; [apply preserves_createCanvasFunction |].
    intros ctx.
    apply preserves_from_canvas. intros l h1 h2 r. apply convert_frame.
  - apply preserves_bind; [apply preserves_sharp |]. intros img.
    apply preserves_bind; [apply preserves_get_image |]. intros o.
    apply preserves_bind; [apply preserves_resize_switch |]. intros img'.
    apply preserves_loadImageFunction.
Qed.

Lemma preserves_pad this left right top bottom :
  preserves (pad env this left right top bottom).
Proof.
  unfold pad.
  repeat case_match.
  - apply preserves_ret.
  - apply preserves_bind; [apply preserves_get_image |]. intros o.
    apply preserves_bind; [apply preserves_createCanvasFunction |].
    intros canvas.
    apply preserves_bind; [apply preserves_toImageData |]. intros imageData.
    apply preserves_bind; [apply preserves_ctx_putImageData |].
    intros canvas'.
    apply preserves_from_canvas. intros l h1 h2 r.
    apply convert_after_get_image.
  - apply preserves_bind; [apply preserves_get_image |]. intros o.
    apply preserves_bind; [apply preserves_get_array |]. intros d.
    apply preserves_fresh_image.
  - apply preserves_bind; [apply preserves_get_image |]. intros o.
    apply preserves_bind; [apply preserves_toCanvas |]. intros canvas.
    apply preserves_bind; [apply preserves_get_image |]. intros o'.
    apply preserves_bind; [apply preserves_createCanvasFunction |].
    intros ctx.
    apply preserves_from_canvas. intros l h1 h2 r. apply convert_frame.
  - apply preserves_bind; [apply preserves_sharp |]. intros img.
    apply preserves_loadImageFunction.
Qed.

Lemma preserves_center_crop this crop_width crop_height :
  preserves (center_crop env this crop_width crop_height).
Proof.
  unfold center_crop.
  apply preserves_bind; [apply preserves_get_image |]. intros o.
  destruct ((width o =? crop_width) && (height o =? crop_height));
    [apply preserves_ret |].
  destruct (IS_REACT_NATIVE env);
    [destruct (createCanvasFunction_defined env && useGCanvas env)
    | destruct (BROWSER_ENV env)].
  - apply preserves_bind; [apply preserves_createCanvasFunction |].
    intros canvas.
    apply preserves_bind; [apply preserves_toImageData |]. intros imageData.
    apply preserves_bind; [apply preserves_ctx_putImageData |].
    intros canvas'.
    apply preserves_from_canvas. intros l h1 h2 r.
    apply convert_after_get_image.
  - apply preserves_bind; [apply preserves_get_array |]. intros d.
    apply preserves_fresh_image.
  - apply preserves_bind; [apply preserves_toCanvas |]. intros canvas.
    apply preserves_bind; [apply preserves_createCanvasFunction |].
    intros ctx.
    apply preserves_from_canvas. intros l h1 h2 r. apply convert_frame.
  - apply preserves_bind; [apply preserves_sharp |]. intros img.
    apply preserves_loadImageFunction.
Qed.

(** Whatever the host and the arguments, and whether they return or
    throw, [resize], [pad] and [center_crop] leave the instance they are
    called on, every other instance and every typed array as they were:
    unlike [convert], [grayscale], [rgb] and [rgba], they never work in
    place. *)
Theorem resize_pad_center_crop_never_in_place this h h' (r : error + loc) :
  (∃ width' height' resample,
     resize env this width' height' resample h = (h', r))
  ∨ (∃ left right top bottom, pad env this left right top bottom h = (h', r))
  ∨ (∃ crop_width crop_height,
       center_crop env this crop_width crop_height h = (h', r)) →
  heap_le h h'.
Proof.
  intros [(? & ? & ? & Hrun) | [(? & ? & ? & ? & Hrun) | (? & ? & Hrun)]].
  - by eapply preserves_resize.
  - by eapply preserves_pad.
  - by eapply preserves_center_crop.
Qed.

End Frames.

(** ** Cropping with sharp *)





Section SharpCrop.

Context (env : Env) `{CanvasAPI} `{SharpAPI} `{MathsAPI}.


End SharpCrop.

(** ** Without a canvas; saving *)

Lemma bind_returns {A B : Type} (m : M A) (k : A → M B) h h' y :
  bind m k h = (h', inr y) →
  ∃ h1 x, m h = (h1, inr x) ∧ k x h1 = (h', inr y).
Proof.
  unfold bind. destruct (m h) as [h1 [e | x]]; [done |]. by exists h1, x.
Qed.


Section Saving.

Context (env : Env) `{CanvasAPI} `{!EncodeAPI} `{SharpAPI} `{MathsAPI}.

Lemma toCanvas_needs_createCanvasFunction this h h' canvas :
  createCanvasFunction_defined env = false →
  toCanvas env this h ≠ (h', inr canvas).
Proof.
  intros Hcanvas. unfold toCanvas.
  destruct (IS_REACT_NATIVE env && negb (createCanvasFunction_defined env));
    [done |].
  intros (h1 & cl & _ & Hrun)%bind_returns.
  apply bind_returns in Hrun as (h2 & cl' & _ & Hrun).
  apply bind_returns in Hrun as (h3 & c & _ & Hrun).
  apply bind_returns in Hrun as (h4 & clonedCanvas & Hrun & _).
  unfold createCanvasFunction in Hrun. by rewrite Hcanvas in Hrun.
Qed.

Lemma toImageData_needs_ImageDataClass this h h' imageData :
  ImageDataClass_defined env = false →
  toImageData env this h ≠ (h', inr imageData).
Proof.
  intros Hid. unfold toImageData.
  destruct (IS_REACT_NATIVE env && negb (ImageDataClass_defined env));
    [done |].
  intros (h1 & cl & _ & Hrun)%bind_returns.
  apply bind_returns in Hrun as (h2 & cl' & _ & Hrun).
  apply bind_returns in Hrun as (h3 & c & _ & Hrun).
  unfold new_ImageDataClass in Hrun. by rewrite Hid in Hrun.
Qed.

(** Where the module has no canvas function and no [ImageData], as on
    Node.js with sharp, [toCanvas] and [toImageData] throw on every
    instance, and leave every instance and array as it was. *)
Theorem toCanvas_and_toImageData_throw_without_a_canvas this h :
  createCanvasFunction_defined env = false →
  ImageDataClass_defined env = false →
  (∃ h' e, toCanvas env this h = (h', inl e) ∧ heap_le h h')
  ∧ (∃ h' e, toImageData env this h = (h', inl e) ∧ heap_le h h').
Proof.
  intros Hcanvas Hid. split.
  - destruct (toCanvas env this h) as [h' [e | canvas]] eqn:Hrun.
    + exists h', e. split; [done |]. by eapply toCanvas_frame.
    + by apply toCanvas_needs_createCanvasFunction in Hrun.
  - destruct (toImageData env this h) as [h' [e | imageData]] eqn:Hrun.
    + exists h', e. split; [done |]. by eapply toImageData_frame.
    + by apply toImageData_needs_ImageDataClass in Hrun.
Qed.

(** Outside React Native, [save] leaves every instance and array as it
    was, however it ends; and where the module has no canvas function, as
    on Node.js with sharp, it never reaches its call of [fs]: it ends
    with the error of the disabled file system or with what [toCanvas]
    throws. *)
Theorem save_outside_react_native useFS this path mime h h' outcome :
  IS_REACT_NATIVE env = false →
  save env useFS this path mime h = (h', outcome) →
  heap_le h h'
  ∧ (createCanvasFunction_defined env = false →
     outcome = FilesystemDisabled ∨ ∃ e, outcome = Thrown e).
Proof.
  intros Hrn. unfold save. rewrite Hrn.
  destruct useFS; simpl.
  - destruct (toCanvas env this h) as [h1 [e | canvas]] eqn:Hrun;
      intros [= <- <-]; (split; [by eapply toCanvas_frame |]).
    + intros _. right. by exists e.
    + intros Hcanvas. by apply toCanvas_needs_createCanvasFunction in Hrun.
  - intros [= <- <-]. split; [by split | by left].
Qed.


End Saving.

(** ** Round trips through another channel count *)

(** The luma of a gray pixel is its value: [Math.round] absorbs what the
    three weights, which add up to 0.9999, take away, in binary64 too. *)
Lemma luma_of_gray v :
  0 ≤ v ≤ 255 → luma (Some v) (Some v) (Some v) = Int v.
Proof.
  intros Hv.
  assert (Hall :
    forallb (λ v, match luma (Some v) (Some v) (Some v) with
                  | Int z => z =? v
                  | _ => false
                  end) (seqZ 0 256) = true) by (vm_compute; reflexivity).
  rewrite forallb_forall in Hall. specialize (Hall v).
  destruct (luma (Some v) (Some v) (Some v)) as [| negative | z].
  - discriminate Hall. apply list_elem_of_In, elem_of_seqZ. lia.
  - discriminate Hall. apply list_elem_of_In, elem_of_seqZ. lia.
  - f_equal. apply Z.eqb_eq, Hall, list_elem_of_In, elem_of_seqZ. lia.
Qed.

Lemma byte_of_bytes d i v : bytes d → ta_get d i = Some v → 0 ≤ v ≤ 255.
Proof.
  intros Hd. unfold ta_get. destruct (i <? 0); [done |].
  intros Hv. by apply (Forall_lookup_1 _ _ _ _ Hd) in Hv.
Qed.

(** [convert(4)] then [convert(3)] on a valid RGB buffer gives back the
    pixels it had: adding the alpha channel and dropping it again loses
    nothing. *)
Theorem rgb_to_rgba_and_back h this o d :
  images h !! this = Some o →
  arrays h !! data o = Some d →
  bytes d →
  channels o = 3 →
  0 < width o → 0 < height o →
  len d = width o * height o * channels o →
  ∃ h',
    (let* img := convert this 4 in convert img 3) h = (h', inr this)
    ∧ holds_pixels h' this (width o) (height o) 3
        (byte_at d (width o) (height o) 3).
Proof.
  intros Himg Harr Hd Hc Hw Hh Hlen.
  destruct (rgba_run h this o d) as (wide & Hrun1 & Hlen1 & Hwide);
    [done | done | by right | lia |].
  set (o1 := mkRawImage (length (arrays h)) (width o) (height o) 4).
  assert (Himg1 : images (converted h this o wide 4) !! this = Some o1)
    by (by apply converted_image).
  destruct (rgb_run (converted h this o wide 4) this o1 wide)
    as (nd & Hrun2 & Hlen2 & Hnd);
    [done | apply converted_array | by right | simpl; lia |].
  eexists. split.
  { rewrite (bind_run _ _ _ _ _ (convert_4_run _ _ o _ this Himg
                                   ltac:(lia) Hrun1)).
    apply (convert_3_run _ _ o1 _ this); [done | done | exact Hrun2]. }
  eexists _, nd. split; [by apply converted_image |].
  split; [apply converted_array |]. simpl in *. split_and!; try done.
  { unfold len. rewrite Hlen2. lia. }
  intros x y j Hx Hy Hj.
  assert (y * width o + x + 1 ≤ width o * height o) by nia.
  destruct (flat_index_div_mod 3 j (y * width o + x) ltac:(lia))
    as [Hdiv Hmod].
  destruct (flat_index_div_mod 4 j (y * width o + x) ltac:(lia))
    as [Hdiv4 Hmod4].
  rewrite Hnd, Hdiv, Hmod by nia. simpl.
  rewrite bool_decide_true by (unfold len; rewrite Hlen1; nia).
  rewrite Hwide, Hdiv4, Hmod4 by nia.
  rewrite bool_decide_true by (rewrite Hlen; nia).
  rewrite Hc. simpl.
  destruct (Z.eqb_spec j 3); [lia |].
  destruct (ta_get_inside d ((y * width o + x) * 3 + j)) as [v Hv]; [nia |].
  rewrite Hv. pose proof (byte_of_bytes _ _ _ Hd Hv). simpl.
  rewrite (byte_at_inside _ _ _ _ _ _ _ v) by done.
  f_equal. lia.
Qed.

(** [convert(3)] then [convert(1)] on a valid grayscale buffer gives back
    the value of every pixel, in an array three times as long as the one
    it had. *)
Theorem gray_to_rgb_and_back h this o d :
  images h !! this = Some o →
  arrays h !! data o = Some d →
  bytes d →
  channels o = 1 →
  0 < width o → 0 < height o →
  len d = width o * height o * channels o →
  ∃ h' o' d',
    (let* img := convert this 3 in convert img 1) h = (h', inr this)
    ∧ images h' !! this = Some o' ∧ arrays h' !! data o' = Some d'
    ∧ width o' = width o ∧ height o' = height o ∧ channels o' = 1
    ∧ len d' = 3 * len d
    ∧ ∀ p, 0 ≤ p < width o * height o → ta_get d' p = ta_get d p.
Proof.
  intros Himg Harr Hd Hc Hw Hh Hlen.
  destruct (rgb_run h this o d) as (wide & Hrun1 & Hlen1 & Hwide);
    [done | done | by left | lia |].
  set (o1 := mkRawImage (length (arrays h)) (width o) (height o) 3).
  assert (Himg1 : images (converted h this o wide 3) !! this = Some o1)
    by (by apply converted_image).
  destruct (grayscale_run (converted h this o wide 3) this o1 wide)
    as (nd & Hrun2 & Hlen2 & Hnd);
    [done | apply converted_array | by left | simpl; lia |].
  eexists _, _, nd. split.
  { rewrite (bind_run _ _ _ _ _ (convert_3_run _ _ o _ this Himg
                                   ltac:(lia) Hrun1)).
    apply (convert_1_run _ _ o1 _ this); [done | done | exact Hrun2]. }
  split; [by apply converted_image |].
  split; [apply converted_array |]. simpl in *. split_and!; try done.
  { unfold len. rewrite Hlen2. unfold len in Hlen. lia. }
  intros p Hp.
  rewrite Hnd by nia.
  rewrite bool_decide_true by (unfold len; rewrite Hlen1; nia).
  assert (Hread : ∀ k, 0 ≤ k < 3 →
            ta_get wide (p * 3 + k)
            = Some (ToUint8Clamp (ToNumber (ta_get d p)))).
  { intros k Hk. rewrite Hwide by nia.
    destruct (flat_index_div_mod 3 k p ltac:(lia)) as [Hdiv _].
    rewrite Hdiv, Hc. simpl.
    rewrite bool_decide_true by (rewrite Hlen; nia).
    by rewrite Z.mul_1_r, Z.add_0_r. }
  rewrite <- (Z.add_0_r (p * 3)) at 1.
  rewrite !Hread by lia.
  destruct (ta_get_inside d p) as [v Hv]; [nia |].
  rewrite Hv. pose proof (byte_of_bytes _ _ _ Hd Hv). simpl.
  rewrite luma_of_gray by lia. simpl. f_equal. lia.
Qed.

(** ** The methods sharp is given *)

Lemma key_code_in_table s n :
  key_code s = Some n → ∃ s', RESAMPLING_MAPPING n = Some s' ∧ In s' resample_names.
Proof.
  unfold key_code.
  repeat case_match; intros [= <-]; eexists; (split; [reflexivity |]);
    simpl; tauto.
Qed.

Lemma resolve_resample_in_table resample :
  ¬ outside_table resample →
  ∃ s, resolve_resample resample = method_string s ∧ In s resample_names.
Proof.
  destruct resample as [n | s]; unfold outside_table, resolve_resample.
  - intros Hn. unfold RESAMPLING_MAPPING.
    repeat match goal with
           | |- context [n =? ?k] =>
               destruct (Z.eqb_spec n k);
               [eexists; split; [reflexivity | simpl; tauto] |]
           end.
    lia.
  - intros Hs. destruct (key_code s) as [n |] eqn:Hkey.
    + destruct (key_code_in_table _ _ Hkey) as (s' & -> & Hs').
      by exists s'.
    + destruct (In_dec string_dec s resample_names) as [Hin | Hout].
      * exists s. split; [| done].
        simpl in Hin.
        destruct Hin as [<- | [<- | [<- | [<- | [<- | [<- | []]]]]]];
          reflexivity.
      * exfalso. apply Hs. split; [| done].
        by intros Hin%list_elem_of_In.
Qed.

Section SharpResize.

Context (env : Env) `{CanvasAPI} `{SharpAPI} `{MathsAPI}.

(** With sharp, [resize] returns for every method of the table, given by
    its code, by its name or by the decimal form of its code: the
    [switch] has a case for each of the six names.  What it returns is a
    new instance; the instance it is called on and every array are as
    they were. *)
Theorem resize_sharp_accepts_the_table h this o d width' height' resample :
  IS_REACT_NATIVE env = false →
  BROWSER_ENV env = false →
  images h !! this = Some o →
  arrays h !! data o = Some d →
  ¬ outside_table resample →
  ∃ h' img,
    resize env this width' height' (Some resample) h = (h', inr img)
    ∧ images h !! img = None
    ∧ heap_le h h'.
Proof.
  intros Hrn Hbrowser Himg Harr Hin.
  destruct (resolve_resample_in_table _ Hin) as (s & Hs & Hnames).
  assert (∃ h1 img1,
            resize_switch (mkSharp d (width o) (height o) (channels o) [])
              (width o) (height o) width' height' (method_string s) h
            = (h1, inr img1)
            ∧ images h1 = images h) as (h1 & img1 & Hswitch & Himages).
  { simpl in Hnames.
    destruct Hnames as [<- | [<- | [<- | [<- | [<- | [<- | []]]]]]];
      by eexists _, _. }
  assert (Hrun : resize env this width' height' (Some resample) h
                 = loadImageFunction img1 h1).
  { rewrite (resize_sharp_unfold _ _ _ _ _ _ o d), Hs by done.
    by rewrite (bind_run _ _ _ _ _ Hswitch). }
  exists (loadImageFunction img1 h1).1, (length (images h)).
  split; [| split].
  - rewrite Hrun, loadImageFunction_run. simpl. by rewrite Himages.
  - by apply lookup_ge_None.
  - eapply preserves_resize. rewrite Hrun. apply surjective_pairing.
Qed.

End SharpResize.

(** * The further theorems on concrete images *)

Lemma canvas_host_browser : canvas_host browser.
Proof. split; [done |]. split; [done |]. right. by split. Qed.

Lemma canvas_host_react_native_canvas : canvas_host react_native_canvas.
Proof. split; [done |]. split; [done |]. left. by split. Qed.

Lemma center_crop_fallback_flat_shift_witness :
  ∃ h' img,
    center_crop react_native_fallback 0%nat 4 2 gray_2x2 = (h', inr img)
    ∧ holds_pixels h' img 4 2 1 (center_crop_source [5; 6; 7; 8] 2 2 1 4 2).
Proof.
  apply (center_crop_fallback_flat_shift react_native_fallback gray_2x2
           0%nat (mkRawImage 0 2 2 1) [5; 6; 7; 8] 4 2);
    first [reflexivity | simpl; lia].
Defined.

Lemma convert_succeeds_iff_supported_witness :
  (∃ h' o',
     convert 0%nat 4 rgb_2x2 = (h', inr 0%nat)
     ∧ images h' !! 0%nat = Some o' ∧ channels o' = 4)
  ∧ fails_unsupported (convert 0%nat 2) rgb_2x2 3.
Proof.
  split.
  - apply (convert_succeeds_iff_supported rgb_2x2 0%nat (mkRawImage 0 2 2 3)
             [255; 0; 0; 0; 255; 0; 0; 0; 255; 255; 255; 255] 4);
      first [reflexivity | simpl; lia].
  - apply (convert_succeeds_iff_supported rgb_2x2 0%nat (mkRawImage 0 2 2 3)
             [255; 0; 0; 0; 255; 0; 0; 0; 255; 255; 255; 255] 2);
      first [reflexivity | simpl; lia].
Defined.

Lemma gray_then_rgb_is_luma_witness :
  ∃ h',
    (let* img := convert 0%nat 1 in convert img 3) rgb_2x2 = (h', inr 0%nat)
    ∧ holds_pixels h' 0%nat 2 2 3
        (λ x y _,
           let d := [255; 0; 0; 0; 255; 0; 0; 0; 255; 255; 255; 255] in
           let p := (y * 2 + x) * 3 in
           ToUint8Clamp
             (luma (ta_get d p) (ta_get d (p + 1)) (ta_get d (p + 2)))).
Proof.
  apply (gray_then_rgb_is_luma rgb_2x2 0%nat (mkRawImage 0 2 2 3)
           [255; 0; 0; 0; 255; 0; 0; 0; 255; 255; 255; 255]);
    first [reflexivity | simpl; lia | by left].
Defined.

Lemma toImageData_is_rgba_copy_witness :
  ∃ h1 a dc,
    toImageData browser 0%nat gray_2x2 = (h1, inr (mkImageData a 2 2))
    ∧ arrays gray_2x2 !! a = None ∧ arrays h1 !! a = Some dc
    ∧ array_pixels dc 2 2 4 (rgba_byte [5; 6; 7; 8] 2 2 1)
    ∧ heap_le gray_2x2 h1.
Proof.
  apply (toImageData_is_rgba_copy browser gray_2x2 0%nat
           (mkRawImage 0 2 2 1) [5; 6; 7; 8]);
    first [reflexivity | simpl; lia | by left | by apply bytes_decide].
Defined.

Lemma toCanvas_is_rgba_copy_witness :
  ∃ h1 dc,
    toCanvas browser 0%nat gray_2x2
    = (h1, inr (putImageData (createCanvas 2 2) dc 2 2 0 0))
    ∧ array_pixels dc 2 2 4 (rgba_byte [5; 6; 7; 8] 2 2 1)
    ∧ heap_le gray_2x2 h1.
Proof.
  apply (toCanvas_is_rgba_copy browser gray_2x2 0%nat
           (mkRawImage 0 2 2 1) [5; 6; 7; 8]);
    first [reflexivity | simpl; lia | by left | by apply bytes_decide].
Defined.

Lemma resize_canvas_shape_witness :
  ∃ h' img,
    resize browser 0%nat 3 1 (Some (name "cubic")) rgb_2x2 = (h', inr img)
    ∧ has_shape h' img 3 1 3 ∧ heap_le rgb_2x2 h'.
Proof.
  apply (resize_canvas_shape browser rgb_2x2 0%nat (mkRawImage 0 2 2 3)
           [255; 0; 0; 0; 255; 0; 0; 0; 255; 255; 255; 255] 3 1
           (Some (name "cubic")));
    first [reflexivity | simpl; lia | by left | apply canvas_host_browser].
Defined.

Lemma pad_canvas_shape_witness :
  ∃ h' img,
    pad react_native_canvas 0%nat 1 (-1) 0 2 rgb_2x2 = (h', inr img)
    ∧ has_shape h' img 3 4 3 ∧ heap_le rgb_2x2 h'.
Proof.
  apply (pad_canvas_shape react_native_canvas rgb_2x2 0%nat
           (mkRawImage 0 2 2 3)
           [255; 0; 0; 0; 255; 0; 0; 0; 255; 255; 255; 255] 1 (-1) 0 2);
    first [ reflexivity | simpl; lia | by left
          | apply canvas_host_react_native_canvas ].
Defined.

Lemma center_crop_canvas_shape_witness :
  ∃ h' img,
    center_crop browser 0%nat 1 3 rgb_2x2 = (h', inr img)
    ∧ has_shape h' img 1 3 3 ∧ heap_le rgb_2x2 h'.
Proof.
  apply (center_crop_canvas_shape browser rgb_2x2 0%nat (mkRawImage 0 2 2 3)
           [255; 0; 0; 0; 255; 0; 0; 0; 255; 255; 255; 255] 1 3);
    first [reflexivity | simpl; lia | by left | apply canvas_host_browser].
Defined.

Lemma resize_pad_center_crop_never_in_place_witness :
  heap_le gray_1x1 (pad react_native_fallback 0%nat 1 0 0 0 gray_1x1).1.
Proof.
  apply (resize_pad_center_crop_never_in_place react_native_fallback 0%nat
           gray_1x1 _ (pad react_native_fallback 0%nat 1 0 0 0 gray_1x1).2).
  right. left. exists 1, 0, 0, 0. apply surjective_pairing.
Defined.


Lemma toCanvas_and_toImageData_throw_without_a_canvas_witness :
  (∃ h' e, toCanvas node_sharp 0%nat gray_1x1 = (h', inl e)
           ∧ heap_le gray_1x1 h')
  ∧ (∃ h' e, toImageData node_sharp 0%nat gray_1x1 = (h', inl e)
             ∧ heap_le gray_1x1 h').
Proof.
  apply (toCanvas_and_toImageData_throw_without_a_canvas node_sharp 0%nat
           gray_1x1); reflexivity.
Defined.

Lemma save_outside_react_native_witness :
  heap_le gray_1x1 (save node_sharp true 0%nat "out.png" None gray_1x1).1
  ∧ (createCanvasFunction_defined node_sharp = false →
     (save node_sharp true 0%nat "out.png" None gray_1x1).2
     = FilesystemDisabled
     ∨ ∃ e, (save node_sharp true 0%nat "out.png" None gray_1x1).2
            = Thrown e).
Proof.
  apply (save_outside_react_native node_sharp true 0%nat "out.png" None
           gray_1x1);
    [reflexivity | apply surjective_pairing].
Defined.


Lemma rgb_to_rgba_and_back_witness :
  ∃ h',
    (let* img := convert 0%nat 4 in convert img 3) rgb_2x2 = (h', inr 0%nat)
    ∧ holds_pixels h' 0%nat 2 2 3
        (byte_at [255; 0; 0; 0; 255; 0; 0; 0; 255; 255; 255; 255] 2 2 3).
Proof.
  apply (rgb_to_rgba_and_back rgb_2x2 0%nat (mkRawImage 0 2 2 3)
           [255; 0; 0; 0; 255; 0; 0; 0; 255; 255; 255; 255]);
    first [reflexivity | simpl; lia | by apply bytes_decide].
Defined.

Lemma gray_to_rgb_and_back_witness :
  ∃ h' o' d',
    (let* img := convert 0%nat 3 in convert img 1) gray_2x2 = (h', inr 0%nat)
    ∧ images h' !! 0%nat = Some o' ∧ arrays h' !! data o' = Some d'
    ∧ width o' = 2 ∧ height o' = 2 ∧ channels o' = 1
    ∧ len d' = 3 * len [5; 6; 7; 8]
    ∧ ∀ p, 0 ≤ p < 2 * 2 → ta_get d' p = ta_get [5; 6; 7; 8] p.
Proof.
  apply (gray_to_rgb_and_back gray_2x2 0%nat (mkRawImage 0 2 2 1)
           [5; 6; 7; 8]);
    first [reflexivity | simpl; lia | by apply bytes_decide].
Defined.

Lemma resize_sharp_accepts_the_table_witness :
  ∃ h' img,
    resize node_sharp 0%nat 1 1 (Some (name "3")) gray_2x2 = (h', inr img)
    ∧ images gray_2x2 !! img = None
    ∧ heap_le gray_2x2 h'.
Proof.
  apply (resize_sharp_accepts_the_table node_sharp gray_2x2 0%nat
           (mkRawImage 0 2 2 1) [5; 6; 7; 8] 1 1 (name "3"));
    first [reflexivity | intros [_ Hkey]; discriminate Hkey].
Defined.
